(** * flowrun: the workflow engine of [src/flowrun/src/flowrun/main.py]

    A shallow embedding of the step model, the value interpolator, the three
    executors and the run coordinator, with the properties of the design
    document stated against it.

    Text is modelled by [string]; every character is one code point in the
    range 0..255.  Python dictionaries whose iteration order is observable
    (headers, JSON bodies, nested values) are association lists; the
    environment and the shared results map are [gmap]s keyed by strings. *)

From Stdlib Require Import ZArith Ascii String List Lia Bool.
From Stdlib Require Import Numbers.DecimalString.
From stdpp Require Import base option strings gmap list.

Open Scope string_scope.

(** ** Text helpers: the [str] methods the engine calls *)

Module PyText.

Definition newline : ascii := ascii_of_nat 10.
Definition squote : ascii := ascii_of_nat 39.
Definition dquote : ascii := ascii_of_nat 34.
Definition backslash : ascii := ascii_of_nat 92.

(** [s[n:]] *)
Fixpoint drop_str (n : nat) (s : string) : string :=
  match n, s with
  | O, _ => s
  | S _, EmptyString => EmptyString
  | S k, String _ s' => drop_str k s'
  end.

(** [s[:n]] *)
Fixpoint take_str (n : nat) (s : string) : string :=
  match n, s with
  | O, _ => EmptyString
  | S _, EmptyString => EmptyString
  | S k, String c s' => String c (take_str k s')
  end.

(** [s[:-1]] *)
Fixpoint drop_last (s : string) : string :=
  match s with
  | EmptyString => EmptyString
  | String c EmptyString => EmptyString
  | String c s' => String c (drop_last s')
  end.

(** [s.startswith(p)] *)
Fixpoint startswith (p s : string) : bool :=
  match p, s with
  | EmptyString, _ => true
  | String _ _, EmptyString => false
  | String a p', String b s' => if Ascii.eqb a b then startswith p' s' else false
  end.

(** [s.split(sep)] for a separator [sep] that is not empty: the pieces
    between the occurrences of [sep], found from the left and not
    overlapping.  [cur] holds, reversed, the piece being read. *)
Fixpoint split_go (sep : string) (skip : nat) (cur : string) (s : string)
  : list string :=
  match s with
  | EmptyString => [String.rev cur]
  | String c s' =>
      match skip with
      | S k => split_go sep k cur s'
      | O =>
          if startswith sep s
          then String.rev cur :: split_go sep (String.length sep - 1) EmptyString s'
          else split_go sep O (String c cur) s'
      end
  end.

Definition split (sep s : string) : list string := split_go sep O EmptyString s.

Definition in_chars (cs : string) (c : ascii) : bool :=
  existsb (Ascii.eqb c) (list_ascii_of_string cs).

Fixpoint lstrip (cs s : string) : string :=
  match s with
  | EmptyString => EmptyString
  | String c s' => if in_chars cs c then lstrip cs s' else s
  end.

(** [s.strip(cs)]: characters of [cs] removed from both ends. *)
Definition strip (cs s : string) : string :=
  String.rev (lstrip cs (String.rev (lstrip cs s))).

(** Every character of [s] passes the test [p]. *)
Fixpoint all_chars (p : ascii -> bool) (s : string) : bool :=
  match s with
  | EmptyString => true
  | String c s' => p c && all_chars p s'
  end.

(** [c != d] *)
Definition is_not (d : ascii) (c : ascii) : bool := negb (Ascii.eqb c d).

(** A text that can stand between the braces of a placeholder and be
    matched whole: no closing brace and no newline in it. *)
Definition plain (s : string) : bool :=
  all_chars (fun c => is_not "}" c && is_not newline c) s.

(** A text with no opening brace. *)
Definition brace_free (s : string) : bool := all_chars (is_not "{") s.


(** A lower-case letter of ASCII. *)
Definition is_ascii_lower (c : ascii) : bool :=
  Nat.leb 97 (nat_of_ascii c) && Nat.leb (nat_of_ascii c) 122.

(** [str(n)] for an integer. *)
Definition str_of_Z (z : Z) : string := NilZero.string_of_int (Z.to_int z).

End PyText.

(** ** Python values

    The values a workflow document and a script's result are made of:
    [None], booleans, integers, text, lists and dictionaries with text keys. *)

#[warnings="-register-all"]
Inductive pyval : Type :=
| PyNone
| PyBool (b : bool)
| PyInt (z : Z)
| PyStr (s : string)
| PyList (l : list pyval)
| PyDict (d : list (string * pyval)).

Module PyValue.
Import PyText.

Definition hex_digit (n : nat) : ascii :=
  if Nat.ltb n 10 then ascii_of_nat (48 + n) else ascii_of_nat (87 + n).

(** [\xhh], two lower-case hexadecimal digits. *)
Definition hex_escape (c : ascii) : string :=
  let n := nat_of_ascii c in
  String backslash (String "x" (String (hex_digit (n / 16)) (String (hex_digit (n mod 16)) ""))).

(** [c.isprintable()] on the code points 0..255. *)
Definition is_printable (c : ascii) : bool :=
  let n := nat_of_ascii c in
  (Nat.leb 32 n && Nat.ltb n 127) || (Nat.leb 161 n && negb (Nat.eqb n 173)).

Definition repr_char (quote : ascii) (c : ascii) : string :=
  if Ascii.eqb c quote || Ascii.eqb c backslash then String backslash (String c "")
  else if Ascii.eqb c (ascii_of_nat 9) then String backslash "t"
  else if Ascii.eqb c newline then String backslash "n"
  else if Ascii.eqb c (ascii_of_nat 13) then String backslash "r"
  else if is_printable c then String c ""
  else hex_escape c.

Fixpoint repr_chars (quote : ascii) (s : string) : string :=
  match s with
  | EmptyString => EmptyString
  | String c s' => repr_char quote c ++ repr_chars quote s'
  end.

(** [repr(s)] for text: double quotes only when the text has a single
    quote and no double quote. *)
Definition repr_str (s : string) : string :=
  let quote :=
    if in_chars s squote && negb (in_chars s dquote) then dquote else squote in
  String quote (repr_chars quote s ++ String quote "").

(** [", ".join(xs)] *)
Fixpoint join_comma (xs : list string) : string :=
  match xs with
  | [] => ""
  | [x] => x
  | x :: rest => x ++ ", " ++ join_comma rest
  end.

Fixpoint py_repr (v : pyval) : string :=
  match v with
  | PyNone => "None"
  | PyBool true => "True"
  | PyBool false => "False"
  | PyInt z => str_of_Z z
  | PyStr s => repr_str s
  | PyList l => "[" ++ join_comma (List.map py_repr l) ++ "]"
  | PyDict d =>
      "{" ++ join_comma
               (List.map (fun kv => repr_str (fst kv) ++ ": " ++ py_repr (snd kv)) d)
          ++ "}"
  end.

(** [str(v)] *)
Definition py_str (v : pyval) : string :=
  match v with
  | PyStr s => s
  | _ => py_repr v
  end.

(** [v is not None] *)
Definition is_not_None (v : pyval) : bool :=
  match v with PyNone => false | _ => true end.

(** [d.get(key)] on a dictionary with text keys: the first binding of [key]. *)
Fixpoint dict_get (key : string) (d : list (string * pyval)) : option pyval :=
  match d with
  | [] => None
  | (k, v) :: rest => if String.eqb k key then Some v else dict_get key rest
  end.

End PyValue.

(** ** Value interpolator: [interpolate], lines 84-100 *)

Module Interp.
Import PyText PyValue.

(** A match object of [re]: group 0 is the whole match, group 1 the text
    between the braces. *)
Record re_match := { group0 : string; group1 : string }.

(** The tail [(.*?)\}\}] of the pattern, tried at the start of [s]: the
    shortest run of characters other than a newline that is followed by
    two closing braces.  Returns the run and the text after the braces. *)
Fixpoint lazy_body (s : string) : option (string * string) :=
  match s with
  | EmptyString => None
  | String c s' =>
      if startswith "}}" s then Some (EmptyString, drop_str 2 s)
      else if Ascii.eqb c newline then None
      else match lazy_body s' with
           | Some (v, rest) => Some (String c v, rest)
           | None => None
           end
  end.

(** The pattern [\{\{(.*?)\}\}] tried at the start of [s]. *)
Definition match_at (s : string) : option (re_match * string) :=
  if startswith "{{" s then
    match lazy_body (drop_str 2 s) with
    | Some (v, rest) => Some ({| group0 := "{{" ++ v ++ "}}"; group1 := v |}, rest)
    | None => None
    end
  else None.

(** [re.sub(pattern, repl, text)]: matches are found from the left, do not
    overlap, and each is replaced by [repl] of its match object.  A match
    has at least four characters, so the length of the text is fuel
    enough (lemma [re_sub_go_fuel]). *)
Fixpoint re_sub_go (fuel : nat) (repl : re_match -> string) (s : string) : string :=
  match fuel with
  | O => s
  | S f =>
      match s with
      | EmptyString => EmptyString
      | String c s' =>
          match match_at s with
          | Some (m, rest) => repl m ++ re_sub_go f repl rest
          | None => String c (re_sub_go f repl s')
          end
      end
  end.

Definition re_sub (repl : re_match -> string) (s : string) : string :=
  re_sub_go (String.length s) repl s.

(** The texts between the braces of the successive matches that [re.sub]
    finds in [s], in order. *)
Fixpoint matches_go (fuel : nat) (s : string) : list string :=
  match fuel with
  | O => []
  | S f =>
      match s with
      | EmptyString => []
      | String c s' =>
          match match_at s with
          | Some (m, rest) => group1 m :: matches_go f rest
          | None => matches_go f s'
          end
      end
  end.

Definition matches (s : string) : list string := matches_go (String.length s) s.

(** The f-string [f"{{{{{var}}}}}"]. *)
Definition braced (var : string) : string := "{{" ++ var ++ "}}".

Section Interpolate.
Variable env : gmap string string.
Variable results : gmap string (list (string * pyval)).

Definition repl (m : re_match) : string :=
  let var := group1 m in
  if startswith "env." var then
    let key := drop_str 4 var in
    default (braced var) (env !! key)
  else if startswith "steps[" var then
    match split "']." (drop_last (drop_str 7 var)) with
    | [step_name; key] =>
        let step_name := strip (String squote (String dquote "")) step_name in
        py_str (default (PyStr (braced var))
                        (dict_get key (default [] (results !! step_name))))
    | _ => group0 m
    end
  else group0 m.

Definition interpolate (text : string) : string := re_sub repl text.
End Interpolate.


(** The placeholder [{{env.key}}]. *)
Definition env_reference (key : string) : string := "{{" ++ ("env." ++ key) ++ "}}".

End Interp.

(** ** Step model: class [Step], lines 27-47 *)

Module StepModel.
Import PyText.

(** [c.lower()] on the code points 0..255. *)
Definition lower_char (c : ascii) : ascii :=
  let n := nat_of_ascii c in
  if (Nat.leb 65 n && Nat.leb n 90)
     || (Nat.leb 192 n && Nat.leb n 222 && negb (Nat.eqb n 215))
  then ascii_of_nat (n + 32) else c.

(** [c.upper()] on the code points 0..255.  The three characters whose
    upper case lies outside that range (181, 223, 255) are kept as they
    are; no step type or HTTP method contains them. *)
Definition upper_char (c : ascii) : ascii :=
  let n := nat_of_ascii c in
  if (Nat.leb 97 n && Nat.leb n 122)
     || (Nat.leb 224 n && Nat.leb n 254 && negb (Nat.eqb n 247))
  then ascii_of_nat (n - 32) else c.

Fixpoint map_str (f : ascii -> ascii) (s : string) : string :=
  match s with
  | EmptyString => EmptyString
  | String c s' => String (f c) (map_str f s')
  end.

Definition lower : string -> string := map_str lower_char.
Definition upper : string -> string := map_str upper_char.

(** One entry of [steps:] in the document, typed as the schema of the
    workflow document types it; a key that is absent is [None]. *)
Record RawStep := {
  raw_name : option string;
  raw_type : option string;
  raw_command : option string;
  raw_code : option string;
  raw_method : option string;
  raw_url : option string;
  raw_json : option (list (string * pyval));
  raw_headers : option (list (string * string));
  raw_continue_on_error : option bool
}.

Record Step := {
  name : string;
  type : string;
  command : option string;
  code : option string;
  method : string;
  url : option string;
  json : option (list (string * pyval));
  headers : option (list (string * string));
  continue_on_error : bool
}.

(** [not x] for an optional text: [None] and the empty text are false. *)
Definition falsy (x : option string) : bool :=
  match x with
  | None => true
  | Some s => String.eqb s ""
  end.

(** [Step.__init__]: the step, or the message of the [ValueError]. *)
Definition Step_init (data : RawStep) : Step + string :=
  let self := {|
    name := default "Unnamed step" (raw_name data);
    type := lower (default "" (raw_type data));
    command := raw_command data;
    code := raw_code data;
    method := upper (default "GET" (raw_method data));
    url := raw_url data;
    json := raw_json data;
    headers := raw_headers data;
    continue_on_error := default false (raw_continue_on_error data)
  |} in
  if negb (existsb (String.eqb (type self)) ["shell"; "python"; "http"])
  then inr ("Unknown step type: " ++ type self)
  else if String.eqb (type self) "shell" && falsy (command self)
  then inr "Shell step requires 'command'"
  else if String.eqb (type self) "python" && falsy (code self)
  then inr "Python step requires 'code'"
  else if String.eqb (type self) "http" && falsy (url self)
  then inr "HTTP step requires 'url'"
  else inl self.

(** The part of [load_workflow] (lines 62-81) that builds the steps: the
    first invalid entry ends the process with exit code 1. *)
Fixpoint load_steps (raw_steps : list RawStep) : list Step + Z :=
  match raw_steps with
  | [] => inl []
  | raw :: rest =>
      match Step_init raw with
      | inr _ => inr 1%Z
      | inl step =>
          match load_steps rest with
          | inl steps => inl (step :: steps)
          | inr c => inr c
          end
      end
  end.

(** An entry of [steps:] as the loop of [load_workflow] meets it: a
    mapping, with fields typed as in [RawStep], or a value of another
    kind (a text, a number, a list), for which [isinstance(raw, dict)] is
    false. *)
Inductive RawEntry : Type :=
| Mapping (data : RawStep)
| NotMapping.

(** The loop of [load_workflow], lines 70-79, with its test of the kind of
    each entry: an entry that is not a mapping, like one that [Step]
    rejects with a [ValueError], ends the process with exit code 1. *)
Fixpoint load_entries (raw_steps : list RawEntry) : list Step + Z :=
  match raw_steps with
  | [] => inl []
  | NotMapping :: _ => inr 1%Z
  | Mapping raw :: rest =>
      match Step_init raw with
      | inr _ => inr 1%Z
      | inl step =>
          match load_entries rest with
          | inl steps => inl (step :: steps)
          | inr c => inr c
          end
      end
  end.

(** An entry the loop stops at. *)
Definition refused (entry : RawEntry) : Prop :=
  match entry with
  | NotMapping => True
  | Mapping raw => exists msg, Step_init raw = inr msg
  end.

Record Document := {
  doc_env : option (gmap string string);
  doc_steps : list RawStep
}.

Definition load_workflow (doc : Document)
  : (list Step * gmap string string) + Z :=
  let env := default ∅ (doc_env doc) in
  match load_steps (doc_steps doc) with
  | inl steps => inl (steps, env)
  | inr c => inr c
  end.

End StepModel.

(** ** Exceptions, the world outside the engine, and the engine's monad *)

Module Runtime.
Import PyValue StepModel.

(** The classes of exception the handlers of the engine tell apart.
    [SystemExit] and [KeyboardInterrupt] derive from [BaseException]
    only; the other two derive from [Exception]. *)
Inductive exn_class : Type :=
| TimeoutExpired
| OtherException
| SystemExit
| KeyboardInterrupt.

Record py_exn := {
  exn_cls : exn_class;
  exn_str : string;          (* str(e) *)
  exn_traceback : string     (* traceback.format_exc() *)
}.

(** [isinstance(e, Exception)] *)
Definition is_Exception (e : py_exn) : bool :=
  match exn_cls e with
  | TimeoutExpired | OtherException => true
  | SystemExit | KeyboardInterrupt => false
  end.

Inductive res (A : Type) : Type :=
| Ret (a : A)
| Raise (e : py_exn).
Arguments Ret {A} a.
Arguments Raise {A} e.

(** What [subprocess.run(..., capture_output=True)] returns. *)
Record CompletedProcess := {
  returncode : Z;
  proc_stdout : string;
  proc_stderr : string
}.

(** What [exec] leaves behind: the text written to the redirected
    streams, the shared results dictionary as the script left it, and
    either the local variables the script bound or the exception it
    raised. *)
Record ExecReply := {
  exec_stdout : string;
  exec_stderr : string;
  exec_results : gmap string (list (string * pyval));
  exec_end : res (gmap string pyval)
}.

Record Request := {
  req_method : string;
  req_url : string;
  req_headers : list (string * string);
  req_json : option (list (string * pyval));
  req_timeout : Z
}.

Record Response := {
  status_code : Z;
  text : string
}.

(** The three calls that leave the engine.  Each reads and updates the
    state [W] of the outside world. *)
Class World (W : Type) := {
  subprocess_run : option string -> Z -> W -> res CompletedProcess * W;
  py_exec : option string -> gmap string (list (string * pyval)) -> W -> ExecReply * W;
  httpx_request : Request -> W -> res Response * W
}.

(** One line of the per-step report: the step and what its executor
    returned. *)
Record Outcome := {
  exitCode : Z;
  stdout : string;
  stderr : string
}.

Definition succeeded (o : Outcome) : bool := Z.eqb (exitCode o) 0.

Record Event := {
  ev_step : Step;
  ev_outcome : Outcome
}.

(** The state a run threads through its steps: the outside world, the
    shared dictionary [step_results] and the report printed so far. *)
Record Machine (W : Type) := {
  world : W;
  step_results : gmap string (list (string * pyval));
  console : list Event
}.
Arguments world {W} _.
Arguments step_results {W} _.
Arguments console {W} _.

Definition M (W A : Type) : Type := Machine W -> res A * Machine W.

Definition ret {W A} (a : A) : M W A := fun m => (Ret a, m).

Definition bind {W A B} (c : M W A) (k : A -> M W B) : M W B :=
  fun m =>
    match c m with
    | (Ret a, m') => k a m'
    | (Raise e, m') => (Raise e, m')
    end.

Definition raise {W A} (e : py_exn) : M W A := fun m => (Raise e, m).

Definition lift {W A} (r : res A) : M W A := fun m => (r, m).

(** [try: body  except Exception as e: handler(e)] *)
Definition try_except {W A} (body : M W A) (handler : py_exn -> M W A) : M W A :=
  fun m =>
    match body m with
    | (Ret a, m') => (Ret a, m')
    | (Raise e, m') => if is_Exception e then handler e m' else (Raise e, m')
    end.

Definition with_world {W} (m : Machine W) (w : W) : Machine W :=
  {| world := w; step_results := step_results m; console := console m |}.

Definition with_results {W} (m : Machine W)
    (r : gmap string (list (string * pyval))) : Machine W :=
  {| world := world m; step_results := r; console := console m |}.

Definition get_results {W} : M W (gmap string (list (string * pyval))) :=
  fun m => (Ret (step_results m), m).

Definition set_results {W} (r : gmap string (list (string * pyval))) : M W unit :=
  fun m => (Ret tt, with_results m r).

Definition with_event {W} (m : Machine W) (e : Event) : Machine W :=
  {| world := world m; step_results := step_results m; console := console m ++ [e] |}.

Definition report {W} (e : Event) : M W unit :=
  fun m => (Ret tt, with_event m e).

(** A call into the outside world. *)
Definition call {W A} (f : W -> res A * W) : M W A :=
  fun m => let (r, w') := f (world m) in (r, with_world m w').

End Runtime.

Declare Scope flow_scope.
Delimit Scope flow_scope with flow.
Notation "x <- c ;; k" := (Runtime.bind c (fun x => k))
  (at level 100, c at next level, right associativity) : flow_scope.
Notation "c ;;; k" := (Runtime.bind c (fun _ => k))
  (at level 100, right associativity) : flow_scope.

(** ** Executors and run coordinator, lines 103-261 *)

Module Flowrun.
Import PyText PyValue Interp StepModel Runtime.
Local Open Scope flow_scope.

Section Engine.
Context {W : Type} `{World W}.

(** [run_shell], lines 103-117. *)
Definition run_shell (cmd : option string) : M W Outcome :=
  try_except
    (result <- call (subprocess_run cmd 600) ;;
     ret {| exitCode := returncode result;
            stdout := proc_stdout result;
            stderr := proc_stderr result |})
    (fun e =>
       match exn_cls e with
       | TimeoutExpired =>
           ret {| exitCode := 124; stdout := ""; stderr := "Command timed out" |}
       | _ =>
           ret {| exitCode := 1; stdout := ""; stderr := exn_str e |}
       end).

(** [run_python], lines 120-133.  The script is handed the shared
    dictionary itself, so what it did to it stays, whatever the end. *)
Definition run_python (code : option string) : M W (Outcome * pyval) :=
  results <- get_results ;;
  reply <- call (fun w => let (r, w') := py_exec code results w in (Ret r, w')) ;;
  set_results (exec_results reply) ;;;
  try_except
    (match exec_end reply with
     | Ret local_vars =>
         ret ({| exitCode := 0;
                 stdout := exec_stdout reply;
                 stderr := exec_stderr reply |},
              default PyNone (local_vars !! "return"))
     | Raise e => raise e
     end)
    (fun e =>
       ret ({| exitCode := 1;
               stdout := exec_stdout reply;
               stderr := exn_traceback e |},
            PyNone)).

(** The [TypeError] of [re.sub] on a text that is [None]. *)
Definition type_error_None : py_exn :=
  {| exn_cls := OtherException;
     exn_str := "expected string or bytes-like object, got 'NoneType'";
     exn_traceback := "" |}.

(** The request [run_http] builds, lines 138-153; interpolating a URL
    that is [None] raises. *)
Definition build_request (step : Step) (env : gmap string string)
    (results : gmap string (list (string * pyval))) : res Request :=
  let headers := default [] (headers step) in
  let json_body :=
    match json step with
    | Some (kv :: d) => Some (kv :: d)
    | _ => None
    end in
  match url step with
  | None => Raise type_error_None
  | Some u =>
      let url := interpolate env results u in
      let headers :=
        List.map (fun kv => (fst kv, interpolate env results (snd kv))) headers in
      let json_body :=
        match json_body with
        | Some d =>
            Some (List.map
                    (fun kv => (fst kv, PyStr (interpolate env results (py_str (snd kv))))) d)
        | None => None
        end in
      Ret {| req_method := method step;
             req_url := url;
             req_headers := headers;
             req_json := json_body;
             req_timeout := 30 |}
  end.

Definition in_2xx (status : Z) : bool := (200 <=? status)%Z && (status <? 300)%Z.

(** What [run_http] returns for a response, lines 154-157. *)
Definition outcome_of_response (resp : Response) : Outcome :=
  let status := status_code resp in
  let out :=
    if Nat.ltb 500 (String.length (text resp))
    then "Status: " ++ str_of_Z status ++ String newline (take_str 500 (text resp) ++ "...")
    else text resp in
  let err := if in_2xx status then "" else text resp in
  {| exitCode := if in_2xx status then 0%Z else status;
     stdout := out;
     stderr := err |}.

(** [run_http], lines 136-159. *)
Definition run_http (step : Step) (env : gmap string string) : M W Outcome :=
  try_except
    (results <- get_results ;;
     request <- lift (build_request step env results) ;;
     resp <- call (httpx_request request) ;;
     ret (outcome_of_response resp))
    (fun e => ret {| exitCode := 1; stdout := ""; stderr := exn_str e |}).

(** [execute_step], lines 162-208, without the rendering. *)
Definition execute_step (step : Step) (env : gmap string string) : M W bool :=
  o <- (if String.eqb (type step) "shell" then run_shell (command step)
        else if String.eqb (type step) "python" then
          r <- run_python (code step) ;;
          (if is_not_None (snd r) then
             results <- get_results ;;
             set_results (<[name step := [("result", snd r)]]> results)
           else ret tt) ;;;
          ret (fst r)
        else run_http step env) ;;
  report {| ev_step := step; ev_outcome := o |} ;;;
  let success := succeeded o in
  ret (success || continue_on_error step).

(** The sequential loop of [run], lines 241-247. *)
Fixpoint run_sequential (verbose : bool) (env : gmap string string)
    (steps : list Step) (success : bool) : M W bool :=
  match steps with
  | [] => ret success
  | step :: rest =>
      ok <- execute_step step env ;;
      if negb ok then
        if negb verbose then ret false
        else run_sequential verbose env rest false
      else run_sequential verbose env rest success
  end.

(** A future of the thread pool: the task it was submitted for and what
    the call returned or raised. *)
Record Future := {
  fut_index : nat;
  fut_step : Step;
  fut_result : res bool
}.

(** A worker runs one submitted call to its end; the pool keeps
    whatever it raises in the future. *)
Definition run_task (env : gmap string string) (task : nat * Step) : M W Future :=
  fun m =>
    let (r, m') := execute_step (snd task) env m in
    (Ret {| fut_index := fst task; fut_step := snd task; fut_result := r |}, m').

(** The pool with one worker per step, lines 250-251.  Steps are taken
    as units; [sched] is the order in which the workers get to run:
    its head picks, among the tasks still pending, the next to
    complete.  Leaving the [with] block waits for all of them. *)
Fixpoint pool_run (env : gmap string string) (n : nat) (sched : list nat)
    (pending : list (nat * Step)) (completed : list Future) : M W (list Future) :=
  match n, pending with
  | S n', t0 :: _ =>
      let k := (hd 0 sched mod length pending)%nat in
      f <- run_task env (nth k pending t0) ;;
      pool_run env n' (tl sched) (delete k pending) (completed ++ [f])
  | _, _ => ret completed
  end.

(** The loop over [as_completed], lines 252-254: [f.result()] raises
    again what the call raised. *)
Fixpoint collect (futures : list Future) (success : bool) : M W bool :=
  match futures with
  | [] => ret success
  | f :: rest =>
      match fut_result f with
      | Raise e => raise e
      | Ret ok => collect rest (if negb ok then false else success)
      end
  end.

Definition submit_all (steps : list Step) : list (nat * Step) :=
  imap (fun i step => (i, step)) steps.

Definition run_parallel (sched : list nat) (env : gmap string string)
    (steps : list Step) : M W bool :=
  completed <- pool_run env (length steps) sched (submit_all steps) [] ;;
  collect completed true.

(** [run], lines 211-261: the exit code of the process. *)
Definition run (doc : Document) (parallel verbose : bool) (sched : list nat) : M W Z :=
  match load_workflow doc with
  | inr c => ret c
  | inl (steps, env) =>
      match steps with
      | [] => ret 0%Z
      | _ :: _ =>
          set_results ∅ ;;;
          success <- (if negb parallel then run_sequential verbose env steps true
                      else run_parallel sched env steps) ;;
          ret (if success then 0%Z else 1%Z)
      end
  end.

(** *** Vocabulary of the properties *)

(** A step's effective result, as the coordinator sees it: the value
    [execute_step] returns for the outcome reported in [ev]. *)
Definition effective (ev : Event) : bool :=
  succeeded (ev_outcome ev) || continue_on_error (ev_step ev).

(** The shapes a sequential run can take: [seq_trace verbose steps success
    evs r] relates the declared steps and the verdict so far to the events
    reported and the result of the loop. *)
Inductive seq_trace (verbose : bool)
  : list Step -> bool -> list Event -> res bool -> Prop :=
| trace_done success :
    seq_trace verbose [] success [] (Ret success)
| trace_raise step rest success e :
    is_Exception e = false ->
    seq_trace verbose (step :: rest) success [] (Raise e)
| trace_ok step rest success ev evs r :
    ev_step ev = step -> effective ev = true ->
    seq_trace verbose rest success evs r ->
    seq_trace verbose (step :: rest) success (ev :: evs) r
| trace_stop step rest success ev :
    verbose = false ->
    ev_step ev = step -> effective ev = false ->
    seq_trace verbose (step :: rest) success [ev] (Ret false)
| trace_continue step rest success ev evs r :
    verbose = true ->
    ev_step ev = step -> effective ev = false ->
    seq_trace verbose rest false evs r ->
    seq_trace verbose (step :: rest) success (ev :: evs) r.

(** What [execute_step] makes of its executor's result: the outcome is
    reported and turned into the step's effective result; an exception
    passes through. *)
Definition finish (step : Step) (r : res Outcome * Machine W) : res bool * Machine W :=
  match r with
  | (Ret o, m) =>
      (Ret (succeeded o || continue_on_error step),
       with_event m {| ev_step := step; ev_outcome := o |})
  | (Raise e, m) => (Raise e, m)
  end.

(** The entry a scripted step leaves in the shared dictionary. *)
Definition record_result (step : Step) (returned : pyval) (m : Machine W) : Machine W :=
  if is_not_None returned
  then with_results m (<[name step := [("result", returned)]]> (step_results m))
  else m.

(** The executors leave the report alone, and raise nothing that is an
    [Exception]. *)
Definition discreet {A} (c : M W A) : Prop :=
  forall m,
    console (snd (c m)) = console m
    /\ match fst (c m) with
       | Ret _ => True
       | Raise e => is_Exception e = false
       end.

(** A reply that is a value or an [Exception]. *)
Definition only_Exception {A} (r : res A) : Prop :=
  match r with
  | Ret _ => True
  | Raise e => is_Exception e = true
  end.

(** A world none of whose calls ends in an exception outside [Exception]. *)
Definition tame : Prop :=
  (forall cmd t w, only_Exception (fst (subprocess_run cmd t w)))
  /\ (forall code r w, only_Exception (exec_end (fst (py_exec code r w))))
  /\ (forall rq w, only_Exception (fst (httpx_request rq w))).

(** The exit code [run] leaves with for a verdict. *)
Definition exit_code (r : res bool) : res Z :=
  match r with
  | Ret ok => Ret (if ok then 0%Z else 1%Z)
  | Raise e => Raise e
  end.

(** The task a future was created for. *)
Definition task_of (f : Future) : nat * Step := (fut_index f, fut_step f).

(** A future whose call returned [True]. *)
Definition future_ok (f : Future) : bool :=
  match fut_result f with
  | Ret ok => ok
  | Raise _ => false
  end.

End Engine.
End Flowrun.

(** ** A small world for worked examples

    Commands, scripts and URLs are recognised by their text; the state of
    the world is the list of the requests sent so far. *)

Module Demo.
Import PyText PyValue Interp StepModel Runtime Flowrun.

Definition completed (rc : Z) : res CompletedProcess :=
  Ret {| returncode := rc; proc_stdout := ""; proc_stderr := "" |}.

Definition timed_out : py_exn :=
  {| exn_cls := TimeoutExpired;
     exn_str := "Command 'sleep 601' timed out after 600 seconds";
     exn_traceback := "" |}.

Definition system_exit : py_exn :=
  {| exn_cls := SystemExit; exn_str := "3"; exn_traceback := "" |}.

(** [x == t] for an optional text. *)
Definition is_text (x : option string) (t : string) : bool :=
  match x with
  | Some s => String.eqb s t
  | None => false
  end.

Definition demo_subprocess (cmd : option string) (timeout : Z) (w : list Request)
  : res CompletedProcess * list Request :=
  if is_text cmd "exit 3" then (completed 3, w)
  else if is_text cmd "sleep 601"
       then (if (timeout <? 601)%Z then Raise timed_out else completed 0, w)
       else (completed 0, w).

Definition bind_return (v : pyval) : res (gmap string pyval) :=
  Ret (<["return" := v]> ∅).

Definition value_error : py_exn :=
  {| exn_cls := OtherException; exn_str := "boom";
     exn_traceback := "Traceback (most recent call last): ValueError: boom" |}.

Definition reply_of (results : gmap string (list (string * pyval)))
    (ending : res (gmap string pyval)) : ExecReply :=
  {| exec_stdout := ""; exec_stderr := ""; exec_results := results;
     exec_end := ending |}.

(** Scripts that end normally or with an [Exception]. *)
Definition calm_exec (code : option string)
    (results : gmap string (list (string * pyval))) (w : list Request)
  : ExecReply * list Request :=
  if is_text code "locals()['return'] = 42"
  then (reply_of results (bind_return (PyInt 42)), w)
  else if is_text code "locals()['return'] = None"
  then (reply_of results (bind_return PyNone), w)
  else if is_text code "raise ValueError('boom')"
  then (reply_of results (Raise value_error), w)
  else (reply_of results (Ret ∅), w).

(** The same, and a script that leaves through [SystemExit]. *)
Definition demo_exec (code : option string)
    (results : gmap string (list (string * pyval))) (w : list Request)
  : ExecReply * list Request :=
  if is_text code "raise SystemExit(3)"
  then (reply_of results (Raise system_exit), w)
  else calm_exec code results w.

Definition not_found : Response :=
  {| status_code := 404; text := "no such page" |}.

Definition refused : py_exn :=
  {| exn_cls := OtherException; exn_str := "[Errno 111] Connection refused";
     exn_traceback := "" |}.

Definition demo_request (r : Request) (w : list Request) : res Response * list Request :=
  if String.eqb (req_url r) "http://host/missing" then (Ret not_found, (w ++ [r])%list)
  else if String.eqb (req_url r) "http://down/" then (Raise refused, (w ++ [r])%list)
  else (Ret {| status_code := 200; text := "ok" |}, (w ++ [r])%list).

Definition demo_world : World (list Request) := {|
  subprocess_run := demo_subprocess;
  py_exec := demo_exec;
  httpx_request := demo_request
|}.

Definition calm_world : World (list Request) := {|
  subprocess_run := demo_subprocess;
  py_exec := calm_exec;
  httpx_request := demo_request
|}.

Definition start : Machine (list Request) :=
  {| world := []; step_results := ∅; console := [] |}.

Definition raw (nm ty : string) : RawStep :=
  {| raw_name := Some nm; raw_type := Some ty; raw_command := None;
     raw_code := None; raw_method := None; raw_url := None; raw_json := None;
     raw_headers := None; raw_continue_on_error := None |}.

Definition shell_step (nm cmd : string) (coe : bool) : RawStep :=
  {| raw_name := Some nm; raw_type := Some "shell"; raw_command := Some cmd;
     raw_code := None; raw_method := None; raw_url := None; raw_json := None;
     raw_headers := None; raw_continue_on_error := Some coe |}.

Definition python_step (nm src : string) : RawStep :=
  {| raw_name := Some nm; raw_type := Some "python"; raw_command := None;
     raw_code := Some src; raw_method := None; raw_url := None; raw_json := None;
     raw_headers := None; raw_continue_on_error := None |}.

Definition http_step (nm u : string) : RawStep :=
  {| raw_name := Some nm; raw_type := Some "http"; raw_command := None;
     raw_code := None; raw_method := None; raw_url := Some u; raw_json := None;
     raw_headers := None; raw_continue_on_error := None |}.

(** The step [Step_init] makes of [shell_step nm cmd coe]. *)
Definition valid_shell (nm cmd : string) (coe : bool) : Step :=
  {| name := nm; type := "shell"; command := Some cmd; code := None;
     method := "GET"; url := None; json := None; headers := None;
     continue_on_error := coe |}.

Definition valid_python (nm src : string) : Step :=
  {| name := nm; type := "python"; command := None; code := Some src;
     method := "GET"; url := None; json := None; headers := None;
     continue_on_error := false |}.

Definition valid_http (nm u : string) (body : option (list (string * pyval))) : Step :=
  {| name := nm; type := "http"; command := None; code := None;
     method := "GET"; url := Some u; json := body; headers := None;
     continue_on_error := false |}.

Definition workflow (steps : list RawStep) : Document :=
  {| doc_env := None; doc_steps := steps |}.

(** [c * n] *)
Fixpoint repeat_char (c : ascii) (n : nat) : string :=
  match n with
  | O => EmptyString
  | S k => String c (repeat_char c k)
  end.

Definition soft_then_ok : Document :=
  workflow [shell_step "a" "exit 3" true; shell_step "b" "true" false].

Definition hard_then_ok : Document :=
  workflow [shell_step "a" "exit 3" false; shell_step "b" "true" false].

(** What a report shows of each event: the step's name, its
    [continue_on_error] flag and the exit code. *)
Definition summary (evs : list Event) : list (string * bool * Z) :=
  List.map (fun ev => (name (ev_step ev), continue_on_error (ev_step ev),
                       exitCode (ev_outcome ev))) evs.

Definition returns_none : Document :=
  workflow [python_step "A" "locals()['return'] = None"].

Definition returns_42_then_http : Document :=
  workflow [python_step "A" "locals()['return'] = 42";
            http_step "B" "{{steps['A'].result}}"].

Definition exit_in_the_middle : Document :=
  workflow [shell_step "a" "true" false;
            python_step "P" "raise SystemExit(3)";
            shell_step "b" "true" false].



Definition three_steps : Document :=
  workflow [shell_step "a" "exit 3" false;
            python_step "P" "raise ValueError('boom')";
            http_step "h" "http://down/"].

Definition long_response : Response :=
  {| status_code := 200; text := repeat_char "a" 501 |}.

Definition mixed_body : list (string * pyval) :=
  [("n", PyInt 5); ("flag", PyBool true);
   ("nested", PyDict [("k", PyStr "{{env.X}}")])].

Definition env_X : gmap string string := <["X" := "5"]> ∅.

Definition results_A : gmap string (list (string * pyval)) :=
  <["A" := [("result", PyInt 42)]]> ∅.

(** [{{steps["A"].result }}]: the name in double quotes, and one more
    character after the field. *)
Definition double_quoted : string :=
  "{{steps[" ++ String dquote ("A" ++ String dquote "].result }}").

(** An HTTP entry that spells its method in lower case. *)
Definition post_entry : RawStep :=
  {| raw_name := Some "p"; raw_type := Some "HTTP"; raw_command := None;
     raw_code := None; raw_method := Some "post"; raw_url := Some "http://host/post";
     raw_json := None; raw_headers := None; raw_continue_on_error := None |}.

Definition post_step : Step :=
  {| name := "p"; type := "http"; command := None; code := None;
     method := "POST"; url := Some "http://host/post"; json := None;
     headers := None; continue_on_error := false |}.

End Demo.

(** * Properties *)

(** ** The executors, case by case *)

Module ExecutorFacts.
Import PyText PyValue Interp StepModel Runtime Flowrun.
Local Open Scope list_scope.

Section Cases.
Context {W : Type} `{World W}.

Lemma run_shell_cases (cmd : option string) (m : Machine W) :
  run_shell cmd m =
  match subprocess_run cmd 600 (world m) with
  | (Ret result, w') =>
      (Ret {| exitCode := returncode result;
              stdout := proc_stdout result;
              stderr := proc_stderr result |}, with_world m w')
  | (Raise e, w') =>
      match exn_cls e with
      | TimeoutExpired =>
          (Ret {| exitCode := 124; stdout := ""; stderr := "Command timed out" |},
           with_world m w')
      | OtherException =>
          (Ret {| exitCode := 1; stdout := ""; stderr := exn_str e |}, with_world m w')
      | _ => (Raise e, with_world m w')
      end
  end.
Proof.
  unfold run_shell, try_except, bind, call, ret, is_Exception.
  destruct (subprocess_run cmd 600 (world m)) as [[result|e] w']; [reflexivity|].
  destruct (exn_cls e); reflexivity.
Qed.

Lemma run_python_cases (src : option string) (m : Machine W) :
  run_python src m =
  let (reply, w') := py_exec src (step_results m) (world m) in
  let m' := with_results (with_world m w') (exec_results reply) in
  match exec_end reply with
  | Ret local_vars =>
      (Ret ({| exitCode := 0; stdout := exec_stdout reply; stderr := exec_stderr reply |},
            default PyNone (local_vars !! "return")), m')
  | Raise e =>
      if is_Exception e
      then (Ret ({| exitCode := 1; stdout := exec_stdout reply;
                    stderr := exn_traceback e |}, PyNone), m')
      else (Raise e, m')
  end.
Proof.
  unfold run_python, try_except, bind, call, ret, raise, get_results, set_results.
  destruct (py_exec src (step_results m) (world m)) as [reply w']; simpl.
  destruct (exec_end reply) as [local_vars|e]; [reflexivity|].
  destruct (is_Exception e); reflexivity.
Qed.

Lemma run_http_cases (step : Step) (env : gmap string string) (m : Machine W) :
  run_http step env m =
  match build_request step env (step_results m) with
  | Raise e =>
      if is_Exception e
      then (Ret {| exitCode := 1; stdout := ""; stderr := exn_str e |}, m)
      else (Raise e, m)
  | Ret request =>
      match httpx_request request (world m) with
      | (Ret resp, w') => (Ret (outcome_of_response resp), with_world m w')
      | (Raise e, w') =>
          if is_Exception e
          then (Ret {| exitCode := 1; stdout := ""; stderr := exn_str e |}, with_world m w')
          else (Raise e, with_world m w')
      end
  end.
Proof.
  unfold run_http, try_except, bind, call, ret, lift, get_results.
  destruct (build_request step env (step_results m)) as [request|e]; simpl.
  - destruct (httpx_request request (world m)) as [[resp|e] w']; simpl; [reflexivity|].
    destruct (is_Exception e); reflexivity.
  - destruct (is_Exception e); reflexivity.
Qed.

Lemma execute_step_shell (step : Step) (env : gmap string string) (m : Machine W) :
  type step = "shell" ->
  execute_step step env m = finish step (run_shell (command step) m).
Proof.
  intros Hty. unfold execute_step, finish, bind, report, ret. rewrite Hty. simpl.
  destruct (run_shell (command step) m) as [[o|e] m1]; reflexivity.
Qed.

Lemma execute_step_python (step : Step) (env : gmap string string) (m : Machine W) :
  type step = "python" ->
  execute_step step env m =
  finish step
    match run_python (code step) m with
    | (Ret r, m1) => (Ret (fst r), record_result step (snd r) m1)
    | (Raise e, m1) => (Raise e, m1)
    end.
Proof.
  intros Hty.
  unfold execute_step, finish, record_result, bind, report, ret, get_results, set_results.
  rewrite Hty. simpl.
  destruct (run_python (code step) m) as [[[o returned]|e] m1]; simpl; [|reflexivity].
  destruct (is_not_None returned); reflexivity.
Qed.

Lemma execute_step_http (step : Step) (env : gmap string string) (m : Machine W) :
  type step <> "shell" -> type step <> "python" ->
  execute_step step env m = finish step (run_http step env m).
Proof.
  intros Hs Hp. unfold execute_step, finish, bind, report, ret.
  apply String.eqb_neq in Hs. apply String.eqb_neq in Hp. rewrite Hs, Hp.
  destruct (run_http step env m) as [[o|e] m1]; reflexivity.
Qed.

Lemma run_shell_discreet (cmd : option string) : discreet (run_shell cmd).
Proof.
  intros m. rewrite run_shell_cases.
  destruct (subprocess_run cmd 600 (world m)) as [[result|e] w']; simpl; [done|].
  destruct (exn_cls e) eqn:Hcls; simpl; unfold is_Exception; rewrite ?Hcls; done.
Qed.

Lemma run_python_discreet (src : option string) : discreet (run_python src).
Proof.
  intros m. rewrite run_python_cases.
  destruct (py_exec src (step_results m) (world m)) as [reply w']; simpl.
  destruct (exec_end reply) as [lv|e]; simpl; [done|].
  destruct (is_Exception e) eqn:He; simpl; done.
Qed.

Lemma run_http_discreet (step : Step) (env : gmap string string) :
  discreet (run_http step env).
Proof.
  intros m. rewrite run_http_cases.
  destruct (build_request step env (step_results m)) as [request|e].
  - destruct (httpx_request request (world m)) as [[resp|e] w']; simpl; [done|].
    destruct (is_Exception e) eqn:He; simpl; done.
  - destruct (is_Exception e) eqn:He; simpl; done.
Qed.

(** One step, as the coordinator sees it: either one event is reported and
    the effective result of that event is returned, or an exception outside
    [Exception] passes through and nothing is reported. *)
Lemma execute_step_spec (step : Step) (env : gmap string string) (m : Machine W) :
  (exists o m1,
      execute_step step env m
      = (Ret (effective {| ev_step := step; ev_outcome := o |}), m1)
      /\ console m1 = console m ++ [{| ev_step := step; ev_outcome := o |}])
  \/ (exists e m1,
         execute_step step env m = (Raise e, m1)
         /\ console m1 = console m /\ is_Exception e = false).
Proof.
  destruct (String.eqb_spec (type step) "shell") as [Hs|Hs].
  - rewrite (execute_step_shell step env m Hs).
    destruct (run_shell_discreet (command step) m) as [Hc He].
    destruct (run_shell (command step) m) as [[o|e] m1]; simpl in *.
    + left. eexists o, _. split; [reflexivity|]. simpl. by rewrite Hc.
    + right. by exists e, m1.
  - destruct (String.eqb_spec (type step) "python") as [Hp|Hp].
    + rewrite (execute_step_python step env m Hp).
      destruct (run_python_discreet (code step) m) as [Hc He].
      destruct (run_python (code step) m) as [[[o returned]|e] m1]; simpl in *.
      * left. eexists o, _. split; [reflexivity|]. simpl.
        unfold record_result. destruct (is_not_None returned); simpl; by rewrite Hc.
      * right. by exists e, m1.
    + rewrite (execute_step_http step env m Hs Hp).
      destruct (run_http_discreet step env m) as [Hc He].
      destruct (run_http step env m) as [[o|e] m1]; simpl in *.
      * left. eexists o, _. split; [reflexivity|]. simpl. by rewrite Hc.
      * right. by exists e, m1.
Qed.


(** C6, as the code has it: for a response with status [s] (at least 100,
    as every status code is) the step succeeded with exit code 0 exactly
    when [200 <= s <= 299]; otherwise it failed with exit code [s] and the
    body as error text.  The output is the body when the body has at most
    500 characters; a longer body is cut to its first 500 characters,
    followed by three dots and preceded by a line [Status: s]. *)
Theorem http_response_outcome (step : Step) (env : gmap string string)
    (m : Machine W) (request : Request) (resp : Response) (w' : W) :
  build_request step env (step_results m) = Ret request ->
  httpx_request request (world m) = (Ret resp, w') ->
  (100 <= status_code resp)%Z ->
  let s := status_code resp in
  exists o,
    run_http step env m = (Ret o, with_world m w')
    /\ ((succeeded o = true /\ exitCode o = 0%Z) <-> (200 <= s <= 299)%Z)
    /\ (~ (200 <= s <= 299)%Z ->
        succeeded o = false /\ exitCode o = s /\ stderr o = text resp)
    /\ (String.length (text resp) <= 500 -> stdout o = text resp)
    /\ (500 < String.length (text resp) ->
        stdout o = ("Status: " ++ str_of_Z s
                    ++ String newline (take_str 500 (text resp) ++ "..."))%string).
Proof.
  intros Hreq Hsend Hs s. exists (outcome_of_response resp).
  rewrite run_http_cases, Hreq, Hsend. split; [reflexivity|].
  unfold outcome_of_response, succeeded, in_2xx. fold s. simpl.
  destruct (200 <=? s)%Z eqn:Hlo; destruct (s <? 300)%Z eqn:Hhi; simpl;
    repeat split; intros; try lia; try reflexivity;
    try (destruct (Nat.ltb_spec 500 (String.length (text resp))); (reflexivity || lia)).
  all: try (apply Z.eqb_neq; lia).
  all: try (destruct H0 as [H0 _]; apply Z.eqb_eq in H0; lia).
Qed.

Lemma values_are_text (f : pyval -> string) (d : list (string * pyval)) :
  Forall (fun kv => exists t, snd kv = PyStr t)
         (List.map (fun kv => (fst kv, PyStr (f (snd kv)))) d).
Proof.
  induction d as [|kv d IH]; simpl; constructor; [|exact IH].
  eexists. reflexivity.
Qed.

(** C10: when a step declares a JSON body that is not empty, the body of
    the request maps every key, in the declared order, to the text obtained
    by interpolating [str] of the declared value; so every value sent is a
    text, whatever the declared value was.  That request is the one
    [run_http] hands to [httpx.request]. *)
Theorem json_body_values_are_text (step : Step) (env : gmap string string)
    (m : Machine W) (request : Request) (kv : string * pyval)
    (d : list (string * pyval)) :
  json step = Some (kv :: d) ->
  build_request step env (step_results m) = Ret request ->
  req_json request
  = Some (List.map
            (fun kv => (fst kv, PyStr (interpolate env (step_results m) (py_str (snd kv)))))
            (kv :: d))
  /\ (forall body, req_json request = Some body ->
                   List.map fst body = List.map fst (kv :: d)
                   /\ Forall (fun kv => exists t, snd kv = PyStr t) body)
  /\ run_http step env m
     = match httpx_request request (world m) with
       | (Ret resp, w') => (Ret (outcome_of_response resp), with_world m w')
       | (Raise e, w') =>
           if is_Exception e
           then (Ret {| exitCode := 1; stdout := ""; stderr := exn_str e |},
                 with_world m w')
           else (Raise e, with_world m w')
       end.
Proof.
  intros Hjson Hreq. rewrite run_http_cases, Hreq.
  unfold build_request in Hreq. rewrite Hjson in Hreq.
  destruct (url step) as [u|]; [|discriminate].
  inversion Hreq; subst request; clear Hreq. cbn [req_json].
  split; [reflexivity|]. split; [|reflexivity].
  intros body Hbody. inversion Hbody; subst body; clear Hbody. split.
  - simpl. f_equal. rewrite List.map_map. reflexivity.
  - apply (values_are_text
             (fun v => interpolate env (step_results m) (py_str v)) (kv :: d)).
Qed.

(** C2, as the code has it: when the script of a scripted step ends
    without an exception and leaves a variable [return] bound to a value
    [v] other than [None], the step returns and afterwards the results map
    holds [{"result": v}] under the step's name. *)
Theorem scripted_return_is_recorded (step : Step) (env : gmap string string)
    (m : Machine W) (reply : ExecReply) (w' : W)
    (local_vars : gmap string pyval) (v : pyval) :
  type step = "python" ->
  py_exec (code step) (step_results m) (world m) = (reply, w') ->
  exec_end reply = Ret local_vars ->
  local_vars !! "return" = Some v ->
  v <> PyNone ->
  exists ok m',
    execute_step step env m = (Ret ok, m')
    /\ step_results m' = <[name step := [("result", v)]]> (exec_results reply)
    /\ step_results m' !! name step = Some [("result", v)].
Proof.
  intros Hty Hexec Hend Hret Hv.
  rewrite (execute_step_python step env m Hty), run_python_cases, Hexec, Hend, Hret.
  cbn [fst snd default finish id]. unfold record_result.
  assert (is_not_None v = true) as -> by (destruct v; done).
  eexists _, _. split; [reflexivity|]. simpl. split; [reflexivity|].
  apply lookup_insert_eq.
Qed.

End Cases.

(** *** Worked steps *)

Import Demo.


(** C6 fails as stated: for a body of 501 characters the output starts
    with the line [Status: 200]; it is not the body cut to 500 characters
    with the dots. *)
Lemma long_body_output_has_status_line :
  let o := outcome_of_response long_response in
  String.length (text long_response) = 501
  /\ take_str 11 (stdout o) = "Status: 200"
  /\ String.eqb (stdout o) (take_str 500 (text long_response) ++ "...") = false.
Proof. vm_compute. repeat split. Qed.

Lemma http_response_outcome_witness :
  let step := valid_http "h" "http://host/missing" None in
  exists o request,
    @run_http _ demo_world step ∅ start = (Ret o, with_world start [request])
    /\ succeeded o = false /\ exitCode o = 404%Z /\ stderr o = "no such page"
    /\ stdout o = "no such page".
Proof.
  intros step.
  set (request := {| req_method := "GET"; req_url := "http://host/missing";
                     req_headers := []; req_json := None; req_timeout := 30 |}).
  destruct (@http_response_outcome _ demo_world step ∅ start request not_found [request])
    as (o & Hrun & _ & Hfail & Hshort & _).
  - reflexivity.
  - reflexivity.
  - vm_compute. discriminate.
  - exists o, request. split; [exact Hrun|].
    destruct Hfail as (Hs & Hc & He); [simpl; lia|].
    repeat split; [exact Hs|exact Hc|exact He|].
    apply Hshort. vm_compute. repeat constructor.
Defined.

Lemma json_body_values_are_text_witness :
  let step := valid_http "h" "http://host/post" (Some mixed_body) in
  exists request,
    build_request step env_X ∅ = Ret request
    /\ req_json request
       = Some [("n", PyStr "5"); ("flag", PyStr "True"); ("nested", PyStr "{'k': '5'}")]
    /\ world (snd (@run_http _ demo_world step env_X start)) = [request].
Proof.
  intros step.
  destruct (build_request step env_X ∅) as [request|e] eqn:Hreq;
    [|vm_compute in Hreq; discriminate].
  destruct (@json_body_values_are_text _ demo_world step env_X start request
              ("n", PyInt 5) (tl mixed_body) eq_refl Hreq) as (Hbody & _ & Hsend).
  exists request. split; [reflexivity|]. split.
  - rewrite Hbody. vm_compute. reflexivity.
  - rewrite Hsend. vm_compute in Hreq. inversion Hreq; subst request.
    vm_compute. reflexivity.
Defined.

(** C2 fails as stated: a script that binds [return] to [None] leaves no
    entry in the results map; and after a script bound [return] to 42 under
    the name [A], the URL [{{steps['A'].result}}] of the next step is sent
    as it stands. *)
Lemma none_is_not_recorded_and_reference_stays :
  let quiet := @run _ demo_world returns_none false false [] start in
  let chain := @run _ demo_world returns_42_then_http false false [] start in
  (fst quiet = Ret 0%Z /\ step_results (snd quiet) !! "A" = None)
  /\ (step_results (snd chain) !! "A" = Some [("result", PyInt 42)]
      /\ List.map req_url (world (snd chain)) = ["{{steps['A'].result}}"]).
Proof. vm_compute. repeat split. Qed.

Lemma scripted_return_is_recorded_witness :
  let step := valid_python "A" "locals()['return'] = 42" in
  exists ok m',
    @execute_step _ demo_world step ∅ start = (Ret ok, m')
    /\ step_results m' = <["A" := [("result", PyInt 42)]]> ∅
    /\ step_results m' !! "A" = Some [("result", PyInt 42)].
Proof.
  intros step.
  apply (@scripted_return_is_recorded _ demo_world step ∅ start
           (reply_of ∅ (bind_return (PyInt 42))) [] (<["return" := PyInt 42]> ∅)).
  - reflexivity.
  - reflexivity.
  - reflexivity.
  - vm_compute. reflexivity.
  - discriminate.
Defined.

End ExecutorFacts.

(** ** The sequential coordinator *)

Module SequentialFacts.
Import PyText PyValue Interp StepModel Runtime Flowrun ExecutorFacts.
Local Open Scope list_scope.

Section Sequential.
Context {W : Type} `{World W}.

(** Every run of the sequential loop has one of the shapes of [seq_trace],
    and only adds to the report. *)
Lemma run_sequential_trace (verbose : bool) (env : gmap string string)
    (steps : list Step) :
  forall (success : bool) (m m' : Machine W) (r : res bool),
    run_sequential verbose env steps success m = (r, m') ->
    exists evs, console m' = console m ++ evs
                /\ seq_trace verbose steps success evs r.
Proof.
  induction steps as [|step rest IH]; intros success m m' r Hrun; simpl in Hrun.
  - inversion Hrun; subst. exists []. split; [by rewrite app_nil_r | constructor].
  - unfold bind in Hrun.
    destruct (execute_step_spec step env m) as [(o & m1 & Hex & Hcon)|(e & m1 & Hex & Hcon & He)];
      rewrite Hex in Hrun.
    + set (ev := {| ev_step := step; ev_outcome := o |}) in *.
      destruct (effective ev) eqn:Heff; simpl in Hrun.
      * destruct (IH _ _ _ _ Hrun) as (evs & Hevs & Htr).
        exists (ev :: evs). split.
        -- rewrite Hevs, Hcon, <- app_assoc. reflexivity.
        -- by apply trace_ok.
      * destruct verbose; simpl in Hrun.
        -- destruct (IH _ _ _ _ Hrun) as (evs & Hevs & Htr).
           exists (ev :: evs). split.
           ++ rewrite Hevs, Hcon, <- app_assoc. reflexivity.
           ++ by apply trace_continue.
        -- inversion Hrun; subst. exists [ev]. split; [assumption|].
           by apply trace_stop.
    + inversion Hrun; subst. exists []. split; [by rewrite app_nil_r|].
      by apply trace_raise.
Qed.

(** [run] in sequential mode: the exit code is that of the loop's verdict. *)
Lemma run_sequential_mode (doc : Document) (verbose : bool) (sched : list nat)
    (steps : list Step) (env : gmap string string) (m m' : Machine W) (r : res Z) :
  load_workflow doc = inl (steps, env) ->
  run doc false verbose sched m = (r, m') ->
  exists evs rb, console m' = console m ++ evs
                 /\ seq_trace verbose steps true evs rb
                 /\ r = exit_code rb.
Proof.
  intros Hload Hrun. unfold run in Hrun. rewrite Hload in Hrun.
  destruct steps as [|step rest].
  - inversion Hrun; subst. exists [], (Ret true).
    split; [by rewrite app_nil_r|]. split; [constructor|reflexivity].
  - unfold bind, set_results, ret in Hrun. cbn [negb] in Hrun.
    destruct (run_sequential verbose env (step :: rest) true (with_results m ∅))
      as [rb m1] eqn:Hseq.
    destruct (run_sequential_trace _ _ _ _ _ _ _ Hseq) as (evs & Hevs & Htr).
    exists evs, rb. split; [|split; [assumption|]].
    + destruct rb; inversion Hrun; subst; exact Hevs.
    + destruct rb; inversion Hrun; subst; reflexivity.
Qed.

Lemma seq_trace_all_effective (verbose : bool) (steps : list Step) (success : bool)
    (evs : list Event) (r : res bool) :
  seq_trace verbose steps success evs r ->
  Forall (fun ev => effective ev = true) evs ->
  forall ok, r = Ret ok -> ok = success /\ List.map ev_step evs = steps.
Proof.
  induction 1 as [success|step rest success e He|step rest success ev evs r Hst Heff Htr IH
                 |step rest success ev Hv Hst Heff|step rest success ev evs r Hv Hst Heff Htr IH];
    intros Hall ok Hr.
  - inversion Hr. by subst.
  - discriminate.
  - apply Forall_cons in Hall as [_ Hall]. destruct (IH Hall ok Hr) as [-> Hmap].
    split; [reflexivity|]. simpl. by rewrite Hmap, Hst.
  - apply Forall_cons in Hall as [Hev _]. congruence.
  - apply Forall_cons in Hall as [Hev _]. congruence.
Qed.

Lemma seq_trace_prefix (verbose : bool) (steps : list Step) (success : bool)
    (evs : list Event) (r : res bool) :
  seq_trace verbose steps success evs r ->
  List.map ev_step evs = take (length evs) steps.
Proof.
  induction 1; simpl; try reflexivity; subst.
  - by rewrite IHseq_trace.
  - by rewrite take_0.
  - by rewrite IHseq_trace.
Qed.

Lemma seq_trace_hard_stop (steps : list Step) (success : bool)
    (evs : list Event) (r : res bool) :
  seq_trace false steps success evs r ->
  forall i ev, evs !! i = Some ev -> effective ev = false ->
               length evs = S i /\ r = Ret false.
Proof.
  induction 1 as [success|step rest success e He|step rest success ev0 evs r Hst Heff Htr IH
                 |step rest success ev0 Hv Hst Heff|step rest success ev0 evs r Hv Hst Heff Htr IH];
    intros i ev Hi Hbad.
  - discriminate.
  - discriminate.
  - destruct i as [|i]; simpl in Hi.
    + inversion Hi; subst. congruence.
    + destruct (IH i ev Hi Hbad) as [Hlen Hr]. split; [simpl; by rewrite Hlen|assumption].
  - destruct i as [|i]; simpl in Hi; [by split|discriminate].
  - discriminate.
Qed.

(** C1, as the code has it: in a sequential run that returns, if every
    executed step either succeeded or failed with [continue_on_error] set,
    the exit code is 0 (the verdict is success, not failure) and every
    declared step was executed, in order. *)
Theorem soft_failures_leave_verdict_success (doc : Document) (verbose : bool)
    (sched : list nat) (m : Machine W) (steps : list Step)
    (env : gmap string string) (evs : list Event) :
  load_workflow doc = inl (steps, env) ->
  (exists c, fst (run doc false verbose sched m) = Ret c) ->
  console (snd (run doc false verbose sched m)) = console m ++ evs ->
  Forall (fun ev => succeeded (ev_outcome ev) = true
                    \/ continue_on_error (ev_step ev) = true) evs ->
  fst (run doc false verbose sched m) = Ret 0%Z /\ List.map ev_step evs = steps.
Proof.
  intros Hload [c Hret] Hcon Hall.
  destruct (run doc false verbose sched m) as [r m'] eqn:Hrun; simpl in *.
  destruct (run_sequential_mode _ _ _ _ _ _ _ _ Hload Hrun) as (evs' & rb & Hcon' & Htr & Hr).
  assert (evs' = evs) as -> by (rewrite Hcon in Hcon'; by apply app_inv_head in Hcon').
  assert (Forall (fun ev => effective ev = true) evs) as Heff.
  { eapply Forall_impl; [exact Hall|]. intros ev [Hs|Hc]; unfold effective.
    - by rewrite Hs.
    - rewrite Hc. apply orb_true_r. }
  rewrite Hr in Hret. destruct rb as [ok|e]; simpl in Hret; [|discriminate].
  destruct (seq_trace_all_effective _ _ _ _ _ Htr Heff ok eq_refl) as [-> Hmap].
  split; [by subst r|assumption].
Qed.

(** C4, as the code has it: in a sequential run without [--verbose], a
    step that fails with [continue_on_error] unset is the last step
    executed (the events are those of the steps up to it) and the run ends
    with exit code 1. *)
Theorem hard_failure_stops_quiet_run (doc : Document) (sched : list nat)
    (m : Machine W) (steps : list Step) (env : gmap string string)
    (evs : list Event) (i : nat) (ev : Event) :
  load_workflow doc = inl (steps, env) ->
  console (snd (run doc false false sched m)) = console m ++ evs ->
  evs !! i = Some ev ->
  succeeded (ev_outcome ev) = false ->
  continue_on_error (ev_step ev) = false ->
  length evs = S i
  /\ List.map ev_step evs = take (S i) steps
  /\ fst (run doc false false sched m) = Ret 1%Z.
Proof.
  intros Hload Hcon Hi Hfail Hcoe.
  destruct (run doc false false sched m) as [r m'] eqn:Hrun; simpl in *.
  destruct (run_sequential_mode _ _ _ _ _ _ _ _ Hload Hrun) as (evs' & rb & Hcon' & Htr & Hr).
  assert (evs' = evs) as -> by (rewrite Hcon in Hcon'; by apply app_inv_head in Hcon').
  assert (effective ev = false) as Heff by (unfold effective; by rewrite Hfail, Hcoe).
  destruct (seq_trace_hard_stop _ _ _ _ Htr i ev Hi Heff) as [Hlen ->].
  split; [assumption|]. split; [|by subst r].
  rewrite <- Hlen. eapply seq_trace_prefix; eassumption.
Qed.

End Sequential.

(** *** Worked runs *)

Import Demo.

(** C1 fails as stated: step [a] fails (exit code 3) with
    [continue_on_error] set, step [b] succeeds, and the run exits with
    code 0. *)
Lemma soft_failure_exit_code_zero :
  let out := @run _ Demo.demo_world soft_then_ok false false [] Demo.start in
  fst out = Ret 0%Z
  /\ summary (console (snd out)) = [("a", true, 3%Z); ("b", false, 0%Z)].
Proof. vm_compute. split; reflexivity. Qed.

Lemma soft_failures_leave_verdict_success_witness :
  let out := @run _ Demo.demo_world soft_then_ok false false [] Demo.start in
  fst out = Ret 0%Z
  /\ List.map ev_step (console (snd out)) = [Demo.valid_shell "a" "exit 3" true;
                                              Demo.valid_shell "b" "true" false].
Proof.
  intros out.
  apply (@soft_failures_leave_verdict_success _ Demo.demo_world
           soft_then_ok false [] Demo.start _ ∅ (console (snd out))).
  - reflexivity.
  - exists 0%Z. vm_compute. reflexivity.
  - reflexivity.
  - vm_compute.
    constructor; [right; reflexivity|].
    constructor; [left; reflexivity|]. constructor.
Defined.

(** C4 fails as stated: with [--verbose], step [b] is executed after step
    [a] failed with [continue_on_error] unset. *)
Lemma verbose_run_continues_after_hard_failure :
  let out := @run _ Demo.demo_world hard_then_ok false true [] Demo.start in
  fst out = Ret 1%Z
  /\ summary (console (snd out)) = [("a", false, 3%Z); ("b", false, 0%Z)].
Proof. vm_compute. split; reflexivity. Qed.

Lemma hard_failure_stops_quiet_run_witness :
  let out := @run _ Demo.demo_world hard_then_ok false false [] Demo.start in
  length (console (snd out)) = 1
  /\ List.map ev_step (console (snd out))
     = take 1 [Demo.valid_shell "a" "exit 3" false; Demo.valid_shell "b" "true" false]
  /\ fst out = Ret 1%Z.
Proof.
  intros out.
  apply (@hard_failure_stops_quiet_run _ Demo.demo_world
           hard_then_ok [] Demo.start _ ∅ (console (snd out)) 0
           {| ev_step := Demo.valid_shell "a" "exit 3" false;
              ev_outcome := {| exitCode := 3; stdout := ""; stderr := "" |} |}).
  - reflexivity.
  - reflexivity.
  - vm_compute. reflexivity.
  - reflexivity.
  - reflexivity.
Defined.

End SequentialFacts.

(** ** The parallel coordinator *)

Module ParallelFacts.
Import PyText PyValue Interp StepModel Runtime Flowrun ExecutorFacts.
Local Open Scope list_scope.

Section Parallel.
Context {W : Type} `{World W}.



(** The pool completes every pending task, each once, whatever the order
    the workers run in and whatever the tasks return or raise; each
    future holds what [execute_step] made of its step. *)
Lemma pool_run_all (env : gmap string string) :
  forall (n : nat) (sched : list nat) (pending : list (nat * Step))
         (completed : list Future) (m : Machine W),
    length pending = n ->
    exists fs m',
      pool_run env n sched pending completed m = (Ret (completed ++ fs), m')
      /\ task_of <$> fs ≡ₚ pending
      /\ Forall (fun f => exists m0, fut_result f = fst (execute_step (fut_step f) env m0)) fs.
Proof.
  induction n as [|n IH]; intros sched pending completed m Hlen.
  - destruct pending; [|discriminate]. exists [], m.
    split; [by rewrite app_nil_r|]. split; constructor.
  - destruct pending as [|t0 rest]; [discriminate|].
    set (pending := t0 :: rest) in *.
    set (k := hd 0 sched mod length pending).
    assert (k < length pending) as Hk.
    { apply Nat.mod_upper_bound. rewrite Hlen. discriminate. }
    destruct (lookup_lt_is_Some_2 _ _ Hk) as [task Htask].
    assert (length (delete k pending) = n) as Hdel.
    { rewrite length_delete by eauto. rewrite Hlen. lia. }
    change (pool_run env (S n) sched pending completed m)
      with (bind (run_task env (nth k pending t0))
                 (fun f => pool_run env n (tl sched) (delete k pending) (completed ++ [f])) m).
    rewrite (nth_lookup_Some _ _ _ _ Htask).
    unfold bind, run_task.
    destruct (execute_step task.2 env m) as [r m1] eqn:Hex.
    set (f := {| fut_index := task.1; fut_step := task.2; fut_result := r |}).
    destruct (IH (tl sched) (delete k pending) (completed ++ [f]) m1 Hdel)
      as (fs & m' & Hrun & Hperm & Hall).
    exists (f :: fs), m'. split; [|split].
    + rewrite Hrun, <- app_assoc. reflexivity.
    + rewrite fmap_cons, Hperm. unfold task_of at 1. simpl.
      destruct task as [i step]. simpl. symmetry. by apply delete_Permutation.
    + constructor; [|exact Hall]. exists m. simpl. by rewrite Hex.
Qed.


End Parallel.
End ParallelFacts.

(** ** The boundary between executors and coordinator *)

Module BoundaryFacts.
Import PyText PyValue Interp StepModel Runtime Flowrun ExecutorFacts ParallelFacts.
Local Open Scope list_scope.



Section Boundary.
Context {W : Type} `{World W}.
Hypothesis Htame : tame.

Lemma run_shell_returns (cmd : option string) (m : Machine W) :
  exists o m', run_shell cmd m = (Ret o, m').
Proof.
  rewrite run_shell_cases. destruct Htame as (Hsh & _ & _).
  specialize (Hsh cmd 600%Z (world m)).
  destruct (subprocess_run cmd 600 (world m)) as [[result|e] w']; [by eexists _, _|].
  simpl in Hsh. unfold is_Exception in Hsh.
  destruct (exn_cls e); try discriminate; by eexists _, _.
Qed.

Lemma run_python_returns (src : option string) (m : Machine W) :
  exists r m', run_python src m = (Ret r, m').
Proof.
  rewrite run_python_cases. destruct Htame as (_ & Hpy & _).
  specialize (Hpy src (step_results m) (world m)).
  destruct (py_exec src (step_results m) (world m)) as [reply w']. simpl in *.
  destruct (exec_end reply) as [lv|e]; [by eexists _, _|].
  simpl in Hpy. rewrite Hpy. by eexists _, _.
Qed.

Lemma build_request_only_Exception (step : Step) (env : gmap string string)
    (results : gmap string (list (string * pyval))) :
  only_Exception (build_request step env results).
Proof. unfold build_request. by destruct (url step). Qed.

Lemma run_http_returns (step : Step) (env : gmap string string) (m : Machine W) :
  exists o m', run_http step env m = (Ret o, m').
Proof.
  rewrite run_http_cases. destruct Htame as (_ & _ & Hhttp).
  pose proof (build_request_only_Exception step env (step_results m)) as Hb.
  destruct (build_request step env (step_results m)) as [request|e].
  - specialize (Hhttp request (world m)).
    destruct (httpx_request request (world m)) as [[resp|e] w']; [by eexists _, _|].
    simpl in Hhttp. rewrite Hhttp. by eexists _, _.
  - simpl in Hb. rewrite Hb. by eexists _, _.
Qed.

Lemma execute_step_returns (step : Step) (env : gmap string string) (m : Machine W) :
  exists ok m', execute_step step env m = (Ret ok, m').
Proof.
  destruct (String.eqb_spec (type step) "shell") as [Hs|Hs].
  - rewrite (execute_step_shell step env m Hs).
    destruct (run_shell_returns (command step) m) as (o & m1 & ->). by eexists _, _.
  - destruct (String.eqb_spec (type step) "python") as [Hp|Hp].
    + rewrite (execute_step_python step env m Hp).
      destruct (run_python_returns (code step) m) as (r & m1 & ->). by eexists _, _.
    + rewrite (execute_step_http step env m Hs Hp).
      destruct (run_http_returns step env m) as (o & m1 & ->). by eexists _, _.
Qed.





End Boundary.

Section Claim.
Context {W : Type} `{World W}.


End Claim.

(** *** Worked runs *)

Import Demo.

Lemma calm_world_tame : @tame _ calm_world.
Proof.
  repeat split.
  - intros cmd t w. simpl. unfold demo_subprocess.
    destruct (is_text cmd "exit 3"); [exact I|].
    destruct (is_text cmd "sleep 601"); [|exact I].
    destruct (t <? 601)%Z; [reflexivity|exact I].
  - intros src r w. simpl. unfold calm_exec.
    repeat (match goal with |- context [is_text ?c ?t] => destruct (is_text c t) end;
            [first [exact I | reflexivity]|]).
    exact I.
  - intros rq w. simpl. unfold demo_request.
    destruct (String.eqb (req_url rq) "http://host/missing"); [exact I|].
    destruct (String.eqb (req_url rq) "http://down/"); [reflexivity|exact I].
Qed.



End BoundaryFacts.

(** ** The interpolator *)

Module InterpFacts.
Import PyText PyValue Interp.

Lemma append_cons (c : ascii) (s t : string) :
  (String c s ++ t)%string = String c (s ++ t)%string.
Proof. reflexivity. Qed.

Lemma append_assoc (s t u : string) :
  ((s ++ t) ++ u)%string = (s ++ (t ++ u))%string.
Proof.
  induction s as [|c s IH]; [reflexivity|]. rewrite !append_cons. by rewrite IH.
Qed.

Lemma length_append (s t : string) :
  String.length (s ++ t) = String.length s + String.length t.
Proof.
  induction s as [|c s IH]; [reflexivity|]. rewrite append_cons. simpl. by rewrite IH.
Qed.

Lemma startswith_app (p s : string) :
  startswith p s = true -> s = (p ++ drop_str (String.length p) s)%string.
Proof.
  revert s. induction p as [|a p IH]; intros s Hs; [reflexivity|].
  destruct s as [|b s]; [discriminate|]. simpl in Hs.
  destruct (Ascii.eqb_spec a b) as [->|]; [|discriminate].
  cbn [String.length drop_str]. rewrite append_cons. f_equal. by apply IH.
Qed.

(** A match of the tail of the pattern splits the text. *)
Lemma lazy_body_sound (s v rest : string) :
  lazy_body s = Some (v, rest) -> s = (v ++ "}}" ++ rest)%string.
Proof.
  revert v rest. induction s as [|c s IH]; intros v rest Hm; [discriminate|].
  cbn [lazy_body] in Hm.
  destruct (startswith "}}" (String c s)) eqn:Hclose.
  - inversion Hm; subst. exact (startswith_app "}}" _ Hclose).
  - destruct (Ascii.eqb c newline); [discriminate|].
    destruct (lazy_body s) as [[v' rest']|] eqn:Hrec; [|discriminate].
    inversion Hm; subst. rewrite append_cons. f_equal. exact (IH v' rest eq_refl).
Qed.

(** A match object is the braced text of its group 1, and what follows
    the match is shorter than the text matched against. *)
Lemma match_at_sound (s : string) (m : re_match) (rest : string) :
  match_at s = Some (m, rest) ->
  m = {| group0 := braced (group1 m); group1 := group1 m |}
  /\ s = (group0 m ++ rest)%string.
Proof.
  unfold match_at. destruct (startswith "{{" s) eqn:Hopen; [|discriminate].
  destruct (lazy_body (drop_str 2 s)) as [[v rest']|] eqn:Hbody; [|discriminate].
  intros Hm. inversion Hm; subst. split; [reflexivity|].
  rewrite (startswith_app "{{" _ Hopen) at 1. cbn [String.length].
  rewrite (lazy_body_sound _ _ _ Hbody). simpl.
  by rewrite !append_assoc.
Qed.

Lemma match_at_shorter (s : string) (m : re_match) (rest : string) :
  match_at s = Some (m, rest) -> String.length rest < String.length s.
Proof.
  intros Hm. destruct (match_at_sound _ _ _ Hm) as [Hwf ->].
  rewrite Hwf. unfold braced. cbn [group0].
  rewrite !length_append. simpl. lia.
Qed.

(** The length of the text is fuel enough for [re_sub_go]: more changes
    nothing. *)
Lemma re_sub_go_fuel (repl : re_match -> string) :
  forall (f1 f2 : nat) (s : string),
    String.length s <= f1 -> String.length s <= f2 ->
    re_sub_go f1 repl s = re_sub_go f2 repl s.
Proof.
  induction f1 as [|f1 IH]; intros f2 s H1 H2.
  - destruct s; [|simpl in H1; lia]. by destruct f2.
  - destruct f2 as [|f2]; [destruct s; [reflexivity|simpl in H2; lia]|].
    destruct s as [|c s]; [reflexivity|]. cbn [re_sub_go].
    destruct (match_at (String c s)) as [[m rest]|] eqn:Hm.
    + apply match_at_shorter in Hm. f_equal. apply IH; simpl in *; lia.
    + f_equal. apply IH; simpl in *; lia.
Qed.

(** Replacing every match by itself gives the text back. *)
Lemma re_sub_go_id (repl : re_match -> string) :
  (forall v, repl {| group0 := braced v; group1 := v |} = braced v) ->
  forall (fuel : nat) (s : string), re_sub_go fuel repl s = s.
Proof.
  intros Hid. induction fuel as [|fuel IH]; intros s; [reflexivity|].
  destruct s as [|c s]; [reflexivity|]. cbn [re_sub_go].
  destruct (match_at (String c s)) as [[m rest]|] eqn:Hm.
  - destruct (match_at_sound _ _ _ Hm) as [Hwf Hs].
    rewrite Hs, IH. f_equal. rewrite Hwf at 1. rewrite Hid. by rewrite Hwf.
  - by rewrite IH.
Qed.

(** The same, asked only of the matches the text has. *)
Lemma re_sub_go_pointwise (repl : re_match -> string) :
  forall (fuel : nat) (s : string),
    Forall (fun v => repl {| group0 := braced v; group1 := v |} = braced v)
           (matches_go fuel s) ->
    re_sub_go fuel repl s = s.
Proof.
  induction fuel as [|fuel IH]; intros s Hall; [reflexivity|].
  destruct s as [|c s]; [reflexivity|]. cbn [re_sub_go matches_go] in *.
  destruct (match_at (String c s)) as [[m rest]|] eqn:Hm.
  - destruct (match_at_sound _ _ _ Hm) as [Hwf Hs].
    apply Forall_cons in Hall as [Hhere Hrest].
    rewrite Hs, (IH _ Hrest). f_equal. rewrite Hwf at 1. rewrite Hhere. by rewrite Hwf.
  - by rewrite (IH _ Hall).
Qed.

(** A text of which every placeholder is left as it is by [repl] is left
    as it is by [interpolate]. *)
Lemma interpolate_verbatim (env : gmap string string)
    (results : gmap string (list (string * pyval))) (text : string) :
  Forall (fun v => repl env results {| group0 := braced v; group1 := v |} = braced v)
         (matches text) ->
  interpolate env results text = text.
Proof. apply re_sub_go_pointwise. Qed.

(** With nothing to resolve against, every text is left as it is. *)
Lemma interpolate_nothing_bound (text : string) : interpolate ∅ ∅ text = text.
Proof.
  unfold interpolate, re_sub. apply re_sub_go_id. intros v. unfold repl. cbn [group0 group1].
  destruct (startswith "env." v); [by rewrite lookup_empty|].
  destruct (startswith "steps[" v); [|reflexivity].
  destruct (split "']." (drop_last (drop_str 7 v))) as [|a [|b [|c l]]]; reflexivity.
Qed.

(** A reference to an environment variable that is not bound stays. *)
Lemma repl_env_unbound (env : gmap string string)
    (results : gmap string (list (string * pyval))) (var : string) :
  startswith "env." var = true ->
  env !! drop_str 4 var = None ->
  repl env results {| group0 := braced var; group1 := var |} = braced var.
Proof. intros Hvar Hkey. unfold repl. cbn [group0 group1]. by rewrite Hvar, Hkey. Qed.

(** Whatever is between the braces, if it starts neither with [env.] nor
    with [steps[] it stays. *)
Lemma repl_other (env : gmap string string)
    (results : gmap string (list (string * pyval))) (var : string) :
  startswith "env." var = false ->
  startswith "steps[" var = false ->
  repl env results {| group0 := braced var; group1 := var |} = braced var.
Proof. intros He Hs. unfold repl. cbn [group0 group1]. by rewrite He, Hs. Qed.

(** *** What the slice [var[7:-1]] does to a step reference *)

Import Demo.

(** C3, evaluated on the code: the example of the design, the placeholder
    [{{steps['A'].result}}] with [results = {"A": {"result": 42}}], comes
    back unchanged, because [var[7:-1]] drops the last character of the
    field and the key looked up is [resul]; and a name in double quotes is
    never resolved, because the text is split at a single quote. *)
Theorem step_reference_is_not_resolved :
  interpolate ∅ results_A "{{steps['A'].result}}" = "{{steps['A'].result}}"
  /\ split "']." (drop_last (drop_str 7 "steps['A'].result")) = ["A"; "resul"]
  /\ dict_get "result" (default [] (results_A !! "A")) = Some (PyInt 42)
  /\ interpolate ∅ results_A double_quoted = double_quoted.
Proof. vm_compute. repeat split. Qed.

(** C7, evaluated on the code: [results["A"]] has no field [resultX], so
    [{{steps['A'].resultX}}] is a reference that does not resolve; the code
    replaces it by 42, the value of the field [result]. *)
Theorem unresolved_reference_is_replaced :
  dict_get "resultX" (default [] (results_A !! "A")) = None
  /\ interpolate ∅ results_A "{{steps['A'].resultX}}" = "42".
Proof. vm_compute. split; reflexivity. Qed.

End InterpFacts.

(** * Further properties of the engine *)

(** ** Loading: [Step.__init__] and [load_workflow] *)

Module LoadFacts.
Import PyText PyValue StepModel.
Local Open Scope list_scope.

Lemma upper_char_not_lower (c : ascii) : is_ascii_lower (upper_char c) = false.
Proof. destruct c as [[] [] [] [] [] [] [] []]; reflexivity. Qed.

Lemma upper_char_idempotent (c : ascii) : upper_char (upper_char c) = upper_char c.
Proof. destruct c as [[] [] [] [] [] [] [] []]; reflexivity. Qed.

Lemma upper_idempotent (s : string) : upper (upper s) = upper s.
Proof.
  induction s as [|c s IH]; [reflexivity|].
  unfold upper in *. simpl. by rewrite upper_char_idempotent, IH.
Qed.

Lemma upper_has_no_lower (s : string) :
  all_chars (fun c => negb (is_ascii_lower c)) (upper s) = true.
Proof.
  induction s as [|c s IH]; [reflexivity|].
  unfold upper in *. simpl. by rewrite upper_char_not_lower, IH.
Qed.

Lemma falsy_false (x : option string) :
  falsy x = false -> exists t, x = Some t /\ t <> "".
Proof.
  destruct x as [t|]; [|discriminate]. simpl. intros Ht.
  exists t. split; [reflexivity|]. by apply String.eqb_neq.
Qed.

(** What [Step_init] checks, read off a step it accepted. *)
Lemma Step_init_accepts (data : RawStep) (step : Step) :
  Step_init data = inl step ->
  existsb (String.eqb (type step)) ["shell"; "python"; "http"] = true
  /\ (String.eqb (type step) "shell" && falsy (command step) = false)
  /\ (String.eqb (type step) "python" && falsy (code step) = false)
  /\ (String.eqb (type step) "http" && falsy (url step) = false)
  /\ step = {| name := default "Unnamed step" (raw_name data);
               type := lower (default "" (raw_type data));
               command := raw_command data;
               code := raw_code data;
               method := upper (default "GET" (raw_method data));
               url := raw_url data;
               json := raw_json data;
               headers := raw_headers data;
               continue_on_error := default false (raw_continue_on_error data) |}.
Proof.
  unfold Step_init. cbv zeta.
  set (self := {| name := default "Unnamed step" (raw_name data) |}).
  destruct (existsb (String.eqb (type self)) ["shell"; "python"; "http"]) eqn:Hknown;
    [|discriminate]. cbn [negb].
  destruct (String.eqb (type self) "shell" && falsy (command self)) eqn:Hs; [discriminate|].
  destruct (String.eqb (type self) "python" && falsy (code self)) eqn:Hp; [discriminate|].
  destruct (String.eqb (type self) "http" && falsy (url self)) eqn:Hh; [discriminate|].
  intros Heq. inversion Heq; subst step. by repeat split.
Qed.

(** X1: a step that [Step.__init__] accepts has one of the three types
    and, for its type, the field it needs, present and not empty. *)
Theorem accepted_step_is_well_formed (data : RawStep) (step : Step) :
  Step_init data = inl step ->
  (type step = "shell" \/ type step = "python" \/ type step = "http")
  /\ (type step = "shell" -> exists c, command step = Some c /\ c <> "")
  /\ (type step = "python" -> exists c, code step = Some c /\ c <> "")
  /\ (type step = "http" -> exists u, url step = Some u /\ u <> "").
Proof.
  intros Hinit. destruct (Step_init_accepts _ _ Hinit) as (Hknown & Hs & Hp & Hh & _).
  split; [|split; [|split]].
  - simpl in Hknown. rewrite !orb_true_iff in Hknown.
    destruct Hknown as [Hk|[Hk|[Hk|Hk]]]; try discriminate;
      apply String.eqb_eq in Hk; auto.
  - intros Hty. rewrite Hty in Hs. by apply falsy_false.
  - intros Hty. rewrite Hty in Hp. by apply falsy_false.
  - intros Hty. rewrite Hty in Hh. by apply falsy_false.
Qed.

(** X2: the method of an accepted step is in upper case: it holds no
    lower-case letter of ASCII, and putting it in upper case again changes
    nothing; when the document gives no method it is [GET]. *)
Theorem accepted_step_method_is_upper (data : RawStep) (step : Step) :
  Step_init data = inl step ->
  all_chars (fun c => negb (is_ascii_lower c)) (method step) = true
  /\ upper (method step) = method step
  /\ (raw_method data = None -> method step = "GET").
Proof.
  intros Hinit. destruct (Step_init_accepts _ _ Hinit) as (_ & _ & _ & _ & ->).
  cbn [method]. split; [apply upper_has_no_lower|]. split; [apply upper_idempotent|].
  by intros ->.
Qed.

Lemma load_steps_all_accepted (raw_steps : list RawStep) (steps : list Step) :
  load_steps raw_steps = inl steps
  <-> Forall2 (fun raw step => Step_init raw = inl step) raw_steps steps.
Proof.
  revert steps. induction raw_steps as [|raw rest IH]; intros steps; simpl.
  - split.
    + intros Heq. inversion Heq. constructor.
    + intros Hall. by inversion Hall.
  - split.
    + destruct (Step_init raw) as [step|msg] eqn:Hinit; [|discriminate].
      destruct (load_steps rest) as [steps'|c] eqn:Hrest; [|discriminate].
      intros Heq. inversion Heq; subst. constructor; [assumption|]. by apply IH.
    + intros Hall. inversion Hall as [|raw' step rest' steps' Hinit Hrest]; subst.
      rewrite Hinit. apply IH in Hrest. by rewrite Hrest.
Qed.

(** X3: [load_workflow] builds the steps in the order of the document,
    one per entry: it succeeds with [steps] and [env] exactly when [steps]
    are, entry by entry, what [Step.__init__] makes of the entries, and
    [env] is the document's environment, empty when it gives none. *)
Theorem load_workflow_all_accepted (doc : Document) (steps : list Step)
    (env : gmap string string) :
  load_workflow doc = inl (steps, env)
  <-> Forall2 (fun raw step => Step_init raw = inl step) (doc_steps doc) steps
      /\ env = default ∅ (doc_env doc).
Proof.
  unfold load_workflow. rewrite <- load_steps_all_accepted.
  destruct (load_steps (doc_steps doc)) as [steps'|c]; split.
  - intros Heq. by inversion Heq.
  - intros [Heq ->]. by inversion Heq.
  - discriminate.
  - intros [Heq _]. discriminate.
Qed.

Lemma load_entries_of_mappings (raw_steps : list RawStep) :
  load_entries (List.map Mapping raw_steps) = load_steps raw_steps.
Proof.
  induction raw_steps as [|raw rest IH]; [reflexivity|].
  simpl. destruct (Step_init raw); [|reflexivity]. by rewrite IH.
Qed.

(** X4: for entries that are mappings with fields of the schema's types,
    or not mappings at all, the loop of [load_workflow] fails exactly when
    some entry is not a mapping or is rejected by [Step.__init__] with a
    [ValueError], and then always with exit code 1; on entries that are
    all mappings it is the loader the engine runs on. *)
Theorem load_entries_rejects (raw_steps : list RawEntry) (c : Z) :
  (load_entries raw_steps = inr c <-> c = 1%Z /\ Exists refused raw_steps)
  /\ forall typed, load_entries (List.map Mapping typed) = load_steps typed.
Proof.
  split; [|apply load_entries_of_mappings].
  revert c. induction raw_steps as [|entry rest IH]; intros c; simpl.
  - split; [discriminate|]. intros [_ Hex]. inversion Hex.
  - destruct entry as [raw|].
    + destruct (Step_init raw) as [step|msg] eqn:Hinit.
      * destruct (load_entries rest) as [steps|c'] eqn:Hrest.
        -- split; [discriminate|]. intros [Hc Hex].
           inversion Hex as [? ? Hbad|? ? Hex']; subst;
             [destruct Hbad as [msg Hbad]; congruence|].
           pose proof (proj2 (IH 1%Z) (conj eq_refl Hex')). discriminate.
        -- destruct (proj1 (IH c') eq_refl) as [-> Hex']. split.
           ++ intros Heq. inversion Heq; subst. split; [reflexivity|].
              by apply Exists_cons_tl.
           ++ by intros [-> _].
      * split.
        -- intros Heq. inversion Heq; subst. split; [reflexivity|].
           apply Exists_cons_hd. by exists msg.
        -- by intros [-> _].
    + split.
      * intros Heq. inversion Heq; subst. split; [reflexivity|].
        by apply Exists_cons_hd.
      * by intros [-> _].
Qed.

Import Demo.

Lemma accepted_step_is_well_formed_witness :
  (type (valid_shell "a" "exit 3" true) = "shell"
   \/ type (valid_shell "a" "exit 3" true) = "python"
   \/ type (valid_shell "a" "exit 3" true) = "http")
  /\ exists c, command (valid_shell "a" "exit 3" true) = Some c /\ c <> "".
Proof.
  destruct (accepted_step_is_well_formed (shell_step "a" "exit 3" true)
              (valid_shell "a" "exit 3" true) eq_refl) as (Hty & Hcmd & _).
  split; [exact Hty|]. exact (Hcmd eq_refl).
Defined.

Lemma accepted_step_method_is_upper_witness :
  all_chars (fun c => negb (is_ascii_lower c)) (method post_step) = true
  /\ upper (method post_step) = method post_step.
Proof.
  destruct (accepted_step_method_is_upper post_entry post_step eq_refl) as (Hup & Hid & _).
  by split.
Defined.

End LoadFacts.

(** ** Interpolation, placeholder by placeholder *)

Module InterpLaws.
Import PyText PyValue Interp InterpFacts.

Lemma append_nil_r (s : string) : (s ++ "")%string = s.
Proof. induction s as [|c s IH]; [reflexivity|]. by rewrite append_cons, IH. Qed.

Lemma all_chars_app (p : ascii -> bool) (s t : string) :
  all_chars p (s ++ t) = all_chars p s && all_chars p t.
Proof.
  induction s as [|c s IH]; [reflexivity|].
  rewrite append_cons. simpl. by rewrite IH, andb_assoc.
Qed.

Lemma is_not_true (d c : ascii) : is_not d c = true -> c <> d.
Proof. unfold is_not. intros Hc ->. by rewrite Ascii.eqb_refl in Hc. Qed.

(** No match starts at a character that is not an opening brace. *)
Lemma match_at_not_brace (c : ascii) (s : string) :
  is_not "{" c = true -> match_at (String c s) = None.
Proof.
  intros Hc. unfold match_at. cbn [startswith].
  destruct (Ascii.eqb "{" c) eqn:Heq; [|reflexivity].
  apply Ascii.eqb_eq in Heq. subst c. discriminate.
Qed.

(** A text without opening brace is passed over, and the scan goes on
    behind it. *)
Lemma re_sub_literal_prefix (repl : re_match -> string) (a t : string) :
  brace_free a = true ->
  re_sub repl (a ++ t) = (a ++ re_sub repl t)%string.
Proof.
  induction a as [|c a IH]; intros Ha; [reflexivity|].
  simpl in Ha. apply andb_prop in Ha as [Hc Ha].
  rewrite !append_cons. unfold re_sub at 1. cbn [String.length re_sub_go].
  rewrite (match_at_not_brace c _ Hc). f_equal. exact (IH Ha).
Qed.

(** A plain text followed by two closing braces is matched whole. *)
Lemma lazy_body_plain (v rest : string) :
  plain v = true -> lazy_body (v ++ String "}" (String "}" rest)) = Some (v, rest).
Proof.
  induction v as [|c v IH]; intros Hv; [reflexivity|].
  simpl in Hv. apply andb_prop in Hv as [Hc Hv]. apply andb_prop in Hc as [Hb Hn].
  rewrite append_cons. cbn [lazy_body startswith].
  destruct (Ascii.eqb "}" c) eqn:Hclose.
  { apply Ascii.eqb_eq in Hclose. subst c. discriminate. }
  unfold is_not in Hn. apply negb_true_iff in Hn. rewrite Hn.
  by rewrite (IH Hv).
Qed.

Lemma match_at_placeholder (v rest : string) :
  plain v = true ->
  match_at (String "{" (String "{" (v ++ String "}" (String "}" rest))))
  = Some ({| group0 := braced v; group1 := v |}, rest).
Proof.
  intros Hv. unfold match_at.
  change (startswith "{{" (String "{" (String "{" (v ++ String "}" (String "}" rest)))))
    with true.
  cbn [drop_str]. by rewrite (lazy_body_plain v rest Hv).
Qed.

Lemma re_sub_go_step (repl : re_match -> string) (f : nat) (c : ascii) (s : string) :
  re_sub_go (S f) repl (String c s)
  = match match_at (String c s) with
    | Some (m, rest) => (repl m ++ re_sub_go f repl rest)%string
    | None => String c (re_sub_go f repl s)
    end.
Proof. reflexivity. Qed.

(** A placeholder at the head of the text is replaced, and the scan goes on
    behind it: what replaced it is not read again. *)
Lemma re_sub_placeholder_prefix (repl : re_match -> string) (v rest : string) :
  plain v = true ->
  re_sub repl (String "{" (String "{" (v ++ String "}" (String "}" rest))))
  = (repl {| group0 := braced v; group1 := v |} ++ re_sub repl rest)%string.
Proof.
  intros Hv. unfold re_sub. cbn [String.length].
  rewrite re_sub_go_step, (match_at_placeholder v rest Hv). f_equal.
  apply re_sub_go_fuel; [|reflexivity].
  rewrite length_append. simpl. lia.
Qed.

(** X5: a text with no opening brace comes back as it is, whatever the
    environment and the results hold. *)
Theorem text_without_brace_is_unchanged (env : gmap string string)
    (results : gmap string (list (string * pyval))) (text : string) :
  brace_free text = true -> interpolate env results text = text.
Proof.
  intros Hfree. unfold interpolate. rewrite <- (append_nil_r text) at 1.
  rewrite (re_sub_literal_prefix _ _ _ Hfree). apply append_nil_r.
Qed.

Lemma repl_env (env : gmap string string)
    (results : gmap string (list (string * pyval))) (key : string) :
  repl env results {| group0 := braced ("env." ++ key); group1 := "env." ++ key |}
  = default (env_reference key) (env !! key).
Proof. reflexivity. Qed.

Lemma plain_env (key : string) : plain key = true -> plain ("env." ++ key) = true.
Proof. intros Hkey. unfold plain. rewrite all_chars_app. by apply andb_true_intro. Qed.

(** X6: a reference to an environment variable, alone in the text, is
    replaced by the value bound to the key, as it stands (a placeholder
    inside the value is not resolved in turn), and is left as it is when
    the key is not bound. *)
Theorem env_reference_is_looked_up (env : gmap string string)
    (results : gmap string (list (string * pyval))) (key : string) :
  plain key = true ->
  interpolate env results (env_reference key)
  = default (env_reference key) (env !! key).
Proof.
  intros Hkey. unfold interpolate.
  change (env_reference key)
    with (String "{" (String "{" (("env." ++ key) ++ String "}" (String "}" "")))) at 1.
  rewrite (re_sub_placeholder_prefix _ _ _ (plain_env key Hkey)), repl_env.
  apply append_nil_r.
Qed.

(** X7: interpolation goes through the text from the left, piece by
    piece: a piece with no opening brace is copied, a placeholder with a
    plain inside is replaced by what [repl] makes of it, and in both cases
    the rest of the text is interpolated on its own. *)
Theorem interpolate_goes_left_to_right (env : gmap string string)
    (results : gmap string (list (string * pyval))) (rest : string) :
  (forall a, brace_free a = true ->
             interpolate env results (a ++ rest)
             = (a ++ interpolate env results rest)%string)
  /\ (forall v, plain v = true ->
                interpolate env results ("{{" ++ v ++ "}}" ++ rest)
                = (repl env results {| group0 := braced v; group1 := v |}
                   ++ interpolate env results rest)%string).
Proof.
  split.
  - intros a Ha. by apply re_sub_literal_prefix.
  - intros v Hv. unfold interpolate.
    rewrite <- (re_sub_placeholder_prefix _ _ _ Hv). reflexivity.
Qed.

(** *** References to a step's result *)













Import Demo.


Lemma text_without_brace_is_unchanged_witness :
  interpolate env_X results_A "http://host/a}}b" = "http://host/a}}b".
Proof. by apply text_without_brace_is_unchanged. Defined.

Lemma env_reference_is_looked_up_witness :
  interpolate env_X results_A (env_reference "X") = "5"
  /\ interpolate env_X results_A (env_reference "Y") = env_reference "Y".
Proof.
  split.
  - exact (env_reference_is_looked_up env_X results_A "X" eq_refl).
  - exact (env_reference_is_looked_up env_X results_A "Y" eq_refl).
Defined.

Lemma interpolate_goes_left_to_right_witness :
  interpolate env_X results_A ("http://" ++ env_reference "X")
  = ("http://" ++ interpolate env_X results_A (env_reference "X"))%string
  /\ interpolate env_X results_A ("{{" ++ "env.X" ++ "}}" ++ "/{{env.X}}")
     = ("5" ++ interpolate env_X results_A "/{{env.X}}")%string.
Proof.
  destruct (interpolate_goes_left_to_right env_X results_A (env_reference "X"))
    as [Hcopy _].
  destruct (interpolate_goes_left_to_right env_X results_A "/{{env.X}}")
    as [_ Hrepl].
  split.
  - exact (Hcopy "http://" eq_refl).
  - exact (Hrepl "env.X" eq_refl).
Defined.

End InterpLaws.

(** ** One step: what [execute_step] and the executors keep and bound *)

Module StepLaws.
Import PyText PyValue Interp StepModel Runtime Flowrun ExecutorFacts.
Import InterpFacts InterpLaws.
Local Open Scope list_scope.

Lemma length_take_str (n : nat) (s : string) :
  String.length (take_str n s) = Nat.min n (String.length s).
Proof.
  revert s. induction n as [|n IH]; intros s; [reflexivity|].
  destruct s as [|c s]; [reflexivity|]. simpl. by rewrite IH.
Qed.

(** X12: the output of an HTTP step is bounded: for a body of at most 500
    characters it has the length of the body, for a longer body it has 512
    characters and the digits of the status code, so it never has more
    than that. *)
Theorem http_output_is_bounded (resp : Response) :
  let out := stdout (outcome_of_response resp) in
  let digits := String.length (str_of_Z (status_code resp)) in
  String.length out <= 512 + digits
  /\ (String.length (text resp) <= 500 -> String.length out = String.length (text resp))
  /\ (500 < String.length (text resp) -> String.length out = 512 + digits).
Proof.
  unfold outcome_of_response. cbn [stdout].
  destruct (Nat.ltb_spec 500 (String.length (text resp))) as [Hlong|Hshort].
  - rewrite !length_append. cbn [String.length].
    rewrite length_append, length_take_str.
    rewrite (Nat.min_l 500 (String.length (text resp))) by lia.
    cbn [String.length]. lia.
  - lia.
Qed.

Section Steps.
Context {W : Type} `{World W}.

(** X9: a step with [continue_on_error] set never reports a failure to
    the coordinator: whenever [execute_step] returns, it returns [True]. *)
Theorem continue_on_error_never_fails (step : Step) (env : gmap string string)
    (m m' : Machine W) (ok : bool) :
  continue_on_error step = true ->
  execute_step step env m = (Ret ok, m') ->
  ok = true.
Proof.
  intros Hcoe Hex.
  destruct (execute_step_spec step env m)
    as [(o & m1 & Hspec & _)|(e & m1 & Hspec & _)]; rewrite Hspec in Hex.
  - inversion Hex. unfold effective. cbn [ev_step]. rewrite Hcoe. apply orb_true_r.
  - discriminate.
Qed.

Lemma finish_results (step : Step) (r : res Outcome * Machine W) :
  step_results (snd (finish step r)) = step_results (snd r).
Proof. destruct r as [[o|e] m]; reflexivity. Qed.

(** X10: only scripted steps touch the results map: a shell step or an
    HTTP step leaves it as it found it, whatever its outcome. *)
Theorem shell_and_http_keep_results (step : Step) (env : gmap string string)
    (m : Machine W) :
  type step <> "python" ->
  step_results (snd (execute_step step env m)) = step_results m.
Proof.
  intros Hp. destruct (String.eqb_spec (type step) "shell") as [Hs|Hs].
  - rewrite (execute_step_shell step env m Hs), finish_results, run_shell_cases.
    destruct (subprocess_run (command step) 600 (world m)) as [[result|e] w'];
      [reflexivity|]. by destruct (exn_cls e).
  - rewrite (execute_step_http step env m Hs Hp), finish_results, run_http_cases.
    destruct (build_request step env (step_results m)) as [request|e].
    + destruct (httpx_request request (world m)) as [[resp|e] w']; [reflexivity|].
      by destruct (is_Exception e).
    + by destruct (is_Exception e).
Qed.

(** X11: a scripted step whose script binds no [return] (or binds it to
    [None]), or ends with an [Exception], writes nothing under its name:
    the results map is what the script left.  The step reports exit code
    0 in the first case and 1 in the second, with the text the script
    printed. *)
Theorem scripted_step_without_return (step : Step) (env : gmap string string)
    (m : Machine W) (reply : ExecReply) (w' : W) :
  type step = "python" ->
  py_exec (code step) (step_results m) (world m) = (reply, w') ->
  match exec_end reply with
  | Ret local_vars => default PyNone (local_vars !! "return") = PyNone
  | Raise e => is_Exception e = true
  end ->
  exists ok o m',
    execute_step step env m = (Ret ok, m')
    /\ step_results m' = exec_results reply
    /\ console m' = console m ++ [{| ev_step := step; ev_outcome := o |}]
    /\ stdout o = exec_stdout reply
    /\ exitCode o = match exec_end reply with Ret _ => 0%Z | Raise _ => 1%Z end.
Proof.
  intros Hty Hexec Hend.
  rewrite (execute_step_python step env m Hty), run_python_cases, Hexec.
  destruct (exec_end reply) as [local_vars|e].
  - rewrite Hend. eexists _, _, _. split; [reflexivity|]. by repeat split.
  - rewrite Hend. eexists _, _, _. split; [reflexivity|]. by repeat split.
Qed.

(** X20: the entry a scripted step writes replaces whatever was recorded
    under its name (the last write wins) and touches no other name: every
    other entry is as the script left it. *)
Theorem scripted_result_write_is_local (step : Step) (env : gmap string string)
    (m : Machine W) (reply : ExecReply) (w' : W)
    (local_vars : gmap string pyval) (v : pyval) :
  type step = "python" ->
  py_exec (code step) (step_results m) (world m) = (reply, w') ->
  exec_end reply = Ret local_vars ->
  local_vars !! "return" = Some v ->
  v <> PyNone ->
  step_results (snd (execute_step step env m)) !! name step = Some [("result", v)]
  /\ forall other, other <> name step ->
       step_results (snd (execute_step step env m)) !! other
       = exec_results reply !! other.
Proof.
  intros Hty Hexec Hend Hret Hv.
  rewrite (execute_step_python step env m Hty), finish_results, run_python_cases.
  rewrite Hexec, Hend, Hret. cbn [fst snd default id]. unfold record_result.
  assert (is_not_None v = true) as -> by (destruct v; done).
  cbn [with_results step_results with_world]. split.
  - apply lookup_insert_eq.
  - intros other Hother. by apply lookup_insert_ne.
Qed.

End Steps.

Lemma map_interpolate_brace_free (env : gmap string string)
    (results : gmap string (list (string * pyval))) (l : list (string * string)) :
  Forall (fun kv => brace_free (snd kv) = true) l ->
  List.map (fun kv => (fst kv, interpolate env results (snd kv))) l = l.
Proof.
  induction 1 as [|[k v] l Hv _ IH]; [reflexivity|]. simpl in *. rewrite IH. f_equal.
  f_equal. unfold interpolate. rewrite <- (append_nil_r v) at 1.
  rewrite (re_sub_literal_prefix _ _ _ Hv). apply append_nil_r.
Qed.

(** X13: an HTTP step whose URL and header values hold no opening brace is
    sent as declared, whatever the environment and the results hold: the
    URL and the headers of the request are those of the step, the method is
    the step's, the timeout is 30 seconds, and a JSON body that is missing
    or empty sends no body. *)
Theorem request_without_brace_is_sent_as_declared (step : Step)
    (env : gmap string string) (results : gmap string (list (string * pyval)))
    (u : string) :
  url step = Some u ->
  brace_free u = true ->
  Forall (fun kv => brace_free (snd kv) = true) (default [] (headers step)) ->
  exists request,
    build_request step env results = Ret request
    /\ req_url request = u
    /\ req_headers request = default [] (headers step)
    /\ req_method request = method step
    /\ req_timeout request = 30%Z
    /\ (json step = None \/ json step = Some [] -> req_json request = None).
Proof.
  intros Hurl Hu Hheaders. unfold build_request. rewrite Hurl.
  eexists. split; [reflexivity|]. cbn [req_url req_headers req_method req_timeout req_json].
  split; [|split; [|split; [|split]]]; try reflexivity.
  - unfold interpolate. rewrite <- (append_nil_r u) at 1.
    rewrite (re_sub_literal_prefix _ _ _ Hu). apply append_nil_r.
  - by apply map_interpolate_brace_free.
  - by intros [->| ->].
Qed.

Import Demo.

Lemma http_output_is_bounded_witness :
  String.length (stdout (outcome_of_response long_response)) = 515
  /\ String.length (stdout (outcome_of_response not_found)) = 12.
Proof.
  destruct (http_output_is_bounded long_response) as (_ & _ & Hlong).
  destruct (http_output_is_bounded not_found) as (_ & Hshort & _).
  split.
  - apply Hlong. vm_compute. lia.
  - apply Hshort. vm_compute. lia.
Defined.

Lemma continue_on_error_never_fails_witness :
  fst (@execute_step _ demo_world (valid_shell "a" "exit 3" true) ∅ start) = Ret true.
Proof.
  destruct (@execute_step _ demo_world (valid_shell "a" "exit 3" true) ∅ start)
    as [[ok|e] m'] eqn:Hex.
  - by rewrite (@continue_on_error_never_fails _ demo_world
                  (valid_shell "a" "exit 3" true) ∅ start m' ok eq_refl Hex).
  - vm_compute in Hex. discriminate.
Defined.

Lemma shell_and_http_keep_results_witness :
  step_results
    (snd (@execute_step _ demo_world (valid_http "h" "http://host/missing" None) env_X
            (with_results start results_A)))
  = results_A.
Proof.
  apply (@shell_and_http_keep_results _ demo_world
           (valid_http "h" "http://host/missing" None) env_X
           (with_results start results_A)).
  discriminate.
Defined.

Lemma scripted_step_without_return_witness :
  let step := valid_python "P" "raise ValueError('boom')" in
  exists ok o m',
    @execute_step _ demo_world step ∅ (with_results start results_A) = (Ret ok, m')
    /\ step_results m' = results_A
    /\ console m' = [{| ev_step := step; ev_outcome := o |}]
    /\ stdout o = ""
    /\ exitCode o = 1%Z.
Proof.
  intros step.
  exact (@scripted_step_without_return _ demo_world step ∅
           (with_results start results_A)
           (reply_of results_A (Raise value_error)) [] eq_refl eq_refl eq_refl).
Defined.

Lemma scripted_result_write_is_local_witness :
  let step := valid_python "A" "locals()['return'] = 42" in
  let before := <["A" := [("result", PyInt 1)]]> (<["B" := [("result", PyInt 2)]]> ∅) in
  let after := step_results (snd (@execute_step _ demo_world step ∅
                                    (with_results start before))) in
  after !! "A" = Some [("result", PyInt 42)]
  /\ after !! "B" = Some [("result", PyInt 2)].
Proof.
  intros step before after.
  destruct (@scripted_result_write_is_local _ demo_world step ∅
              (with_results start before)
              (reply_of before (bind_return (PyInt 42))) []
              (<["return" := PyInt 42]> ∅) (PyInt 42))
    as [Hown Hother]; try reflexivity; try discriminate.
  split; [exact Hown|]. unfold after. rewrite (Hother "B"); [reflexivity|discriminate].
Defined.

Lemma request_without_brace_is_sent_as_declared_witness :
  exists request,
    build_request (valid_http "h" "http://host/missing" None) env_X results_A
    = Ret request
    /\ req_url request = "http://host/missing"
    /\ req_headers request = []
    /\ req_method request = "GET"
    /\ req_timeout request = 30%Z
    /\ req_json request = None.
Proof.
  destruct (request_without_brace_is_sent_as_declared
              (valid_http "h" "http://host/missing" None) env_X results_A
              "http://host/missing" eq_refl eq_refl (List.Forall_nil _))
    as (request & Hreq & Hurl & Hheaders & Hmethod & Htimeout & Hjson).
  exists request. repeat split; try assumption. apply Hjson. by left.
Defined.

End StepLaws.

(** ** The coordinator: verdicts, order, and the two modes compared *)

Module CoordinatorLaws.
Import PyText PyValue Interp StepModel Runtime Flowrun.
Import ExecutorFacts SequentialFacts ParallelFacts BoundaryFacts.
Local Open Scope list_scope.

Lemma seq_trace_verdict (verbose : bool) (steps : list Step) (success : bool)
    (evs : list Event) (r : res bool) :
  seq_trace verbose steps success evs r ->
  forall ok, r = Ret ok ->
    (ok = true <-> success = true /\ List.map ev_step evs = steps
                   /\ Forall (fun ev => effective ev = true) evs).
Proof.
  induction 1 as [success|step rest success e He|step rest success ev evs r Hst Heff Htr IH
                 |step rest success ev Hv Hst Heff|step rest success ev evs r Hv Hst Heff Htr IH];
    intros ok Hr.
  - inversion Hr; subst. split; [by intros ->|]. by intros [-> _].
  - discriminate.
  - rewrite (IH ok Hr). split.
    + intros (Hs & Hmap & Hall). split; [assumption|]. split.
      * simpl. by rewrite Hmap, Hst.
      * by constructor.
    + intros (Hs & Hmap & Hall). split; [assumption|].
      apply Forall_cons in Hall as [_ Hall]. simpl in Hmap. inversion Hmap. by split.
  - inversion Hr; subst. split; [discriminate|].
    intros (_ & _ & Hall). apply Forall_cons in Hall as [Hev _]. congruence.
  - rewrite (IH ok Hr). split; [by intros [Hs _]|].
    intros (_ & _ & Hall). apply Forall_cons in Hall as [Hev _]. congruence.
Qed.

Lemma seq_trace_verbose_all (steps : list Step) (success : bool)
    (evs : list Event) (r : res bool) :
  seq_trace true steps success evs r ->
  forall ok, r = Ret ok -> List.map ev_step evs = steps.
Proof.
  induction 1 as [success|step rest success e He|step rest success ev evs r Hst Heff Htr IH
                 |step rest success ev Hv Hst Heff|step rest success ev evs r Hv Hst Heff Htr IH];
    intros ok Hr; try discriminate.
  - reflexivity.
  - simpl. by rewrite (IH ok Hr), Hst.
  - simpl. by rewrite (IH ok Hr), Hst.
Qed.

Lemma map_snd_imap {A} (g : nat -> nat) (l : list A) :
  List.map snd (imap (fun i x => (g i, x)) l) = l.
Proof.
  revert g. induction l as [|x l IH]; intros g; [reflexivity|].
  simpl. f_equal. exact (IH (g ∘ S)).
Qed.

Section Coordinator.
Context {W : Type} `{World W}.

Lemma bind_assoc {A B C} (c : M W A) (k : A -> M W B) (h : B -> M W C) (m : Machine W) :
  bind (bind c k) h m = bind c (fun a => bind (k a) h) m.
Proof. unfold bind. by destruct (c m) as [[a|e] m1]. Qed.

Lemma bind_returned {A B} (c : M W A) (k : A -> M W B) (m m1 : Machine W) (a : A) :
  c m = (Ret a, m1) -> bind c k m = k a m1.
Proof. intros Hc. unfold bind. by rewrite Hc. Qed.

(** What the loop over the completed futures returns. *)
Lemma collect_spec (futures : list Future) :
  forall (success : bool) (m : Machine W),
    snd (collect futures success m) = m
    /\ match fst (collect futures success m) with
       | Ret ok =>
           (ok = true <-> success = true /\ Forall (fun f => future_ok f = true) futures)
           /\ Forall (fun f => exists b, fut_result f = Ret b) futures
       | Raise e => Exists (fun f => fut_result f = Raise e) futures
       end.
Proof.
  induction futures as [|f rest IH]; intros success m; simpl.
  - split; [reflexivity|]. split; [|constructor]. split; [by intros ->|by intros [-> _]].
  - destruct (fut_result f) as [ok|e] eqn:Hf; simpl.
    + destruct (IH (if negb ok then false else success) m) as [Hm Hres].
      split; [assumption|].
      destruct (fst (collect rest (if negb ok then false else success) m)) as [v|e].
      * destruct Hres as [Hiff Hall]. split; [|constructor; eauto].
        rewrite Hiff. unfold future_ok at 2. split.
        -- intros [Hs Hrest]. destruct ok; simpl in Hs; [|discriminate].
           split; [assumption|]. constructor; [|assumption].
           unfold future_ok. by rewrite Hf.
        -- intros [Hs Hrest]. apply Forall_cons in Hrest as [Hhere Hrest].
           unfold future_ok in Hhere. rewrite Hf in Hhere. subst ok. by split.
      * by apply Exists_cons_tl.
    + split; [reflexivity|]. by apply Exists_cons_hd.
Qed.

Lemma collect_all_ret (futures : list Future) :
  Forall (fun f => exists b, fut_result f = Ret b) futures ->
  forall (success : bool) (m : Machine W),
    collect futures success m = (Ret (success && forallb future_ok futures), m).
Proof.
  induction 1 as [|f rest [b Hf] _ IH]; intros success m; simpl.
  - by rewrite andb_true_r.
  - rewrite Hf, IH. unfold future_ok at 2. rewrite Hf.
    by destruct b, success.
Qed.

(** X14: a workflow with no steps is a success that does nothing: in
    both modes [run] ends with exit code 0 and leaves the state as it
    was. *)
Theorem empty_workflow_is_success (doc : Document) (parallel verbose : bool)
    (sched : list nat) (m : Machine W) :
  doc_steps doc = [] ->
  run doc parallel verbose sched m = (Ret 0%Z, m).
Proof. intros Hnone. unfold run, load_workflow. by rewrite Hnone. Qed.

(** X15: the verdict of a sequential run that returns: the exit code is 0
    or 1, and it is 0 exactly when every declared step was executed and
    none of them failed without [continue_on_error]. *)
Theorem sequential_exit_code (doc : Document) (verbose : bool) (sched : list nat)
    (m : Machine W) (steps : list Step) (env : gmap string string)
    (evs : list Event) :
  load_workflow doc = inl (steps, env) ->
  (exists c, fst (run doc false verbose sched m) = Ret c) ->
  console (snd (run doc false verbose sched m)) = console m ++ evs ->
  (fst (run doc false verbose sched m) = Ret 0%Z
   \/ fst (run doc false verbose sched m) = Ret 1%Z)
  /\ (fst (run doc false verbose sched m) = Ret 0%Z
      <-> List.map ev_step evs = steps
          /\ Forall (fun ev => effective ev = true) evs).
Proof.
  intros Hload [c Hret] Hcon.
  destruct (run doc false verbose sched m) as [r m'] eqn:Hrun; simpl in *.
  destruct (run_sequential_mode _ _ _ _ _ _ _ _ Hload Hrun) as (evs' & rb & Hcon' & Htr & Hr).
  assert (evs' = evs) as -> by (rewrite Hcon in Hcon'; by apply app_inv_head in Hcon').
  rewrite Hr in Hret. destruct rb as [ok|e]; simpl in Hret; [|discriminate].
  pose proof (seq_trace_verdict _ _ _ _ _ Htr ok eq_refl) as Hiff.
  rewrite Hr. simpl. destruct ok.
  - split; [by left|]. split; [|reflexivity]. intros _. by apply Hiff.
  - split; [by right|]. split; [discriminate|].
    intros [Hmap Hall]. assert (false = true) by (apply Hiff; by repeat split).
    discriminate.
Qed.

(** X16: a sequential run executes the steps in the declared order, each
    at most once and none out of turn: whatever the end of the run, the
    steps reported are the first steps of the declared list. *)
Theorem sequential_run_follows_declared_order (doc : Document) (verbose : bool)
    (sched : list nat) (m : Machine W) (steps : list Step)
    (env : gmap string string) (evs : list Event) :
  load_workflow doc = inl (steps, env) ->
  console (snd (run doc false verbose sched m)) = console m ++ evs ->
  List.map ev_step evs = take (length evs) steps.
Proof.
  intros Hload Hcon.
  destruct (run doc false verbose sched m) as [r m'] eqn:Hrun; simpl in *.
  destruct (run_sequential_mode _ _ _ _ _ _ _ _ Hload Hrun) as (evs' & rb & Hcon' & Htr & Hr).
  assert (evs' = evs) as -> by (rewrite Hcon in Hcon'; by apply app_inv_head in Hcon').
  eapply seq_trace_prefix; eassumption.
Qed.

(** X17: with [--verbose] a sequential run that returns has executed
    every declared step, whatever failed on the way. *)
Theorem verbose_run_executes_every_step (doc : Document) (sched : list nat)
    (m : Machine W) (steps : list Step) (env : gmap string string)
    (evs : list Event) (c : Z) :
  load_workflow doc = inl (steps, env) ->
  fst (run doc false true sched m) = Ret c ->
  console (snd (run doc false true sched m)) = console m ++ evs ->
  List.map ev_step evs = steps.
Proof.
  intros Hload Hret Hcon.
  destruct (run doc false true sched m) as [r m'] eqn:Hrun; simpl in *.
  destruct (run_sequential_mode _ _ _ _ _ _ _ _ Hload Hrun) as (evs' & rb & Hcon' & Htr & Hr).
  assert (evs' = evs) as -> by (rewrite Hcon in Hcon'; by apply app_inv_head in Hcon').
  rewrite Hr in Hret. destruct rb as [ok|e]; simpl in Hret; [|discriminate].
  eapply seq_trace_verbose_all; [eassumption|reflexivity].
Qed.

(** X18: the verdict of a parallel run is taken over all the futures the
    pool completed: the run returns success exactly when every step's call
    returned [True], returns at all only when no call raised, and
    otherwise raises what one of the calls raised; collecting the verdict
    changes nothing of the state the pool left. *)
Theorem parallel_verdict_is_conjunction (sched : list nat)
    (env : gmap string string) (steps : list Step) (m : Machine W) :
  exists completed m',
    pool_run env (length steps) sched (submit_all steps) [] m = (Ret completed, m')
    /\ snd (run_parallel sched env steps m) = m'
    /\ match fst (run_parallel sched env steps m) with
       | Ret ok =>
           (ok = true <-> Forall (fun f => future_ok f = true) completed)
           /\ Forall (fun f => exists b, fut_result f = Ret b) completed
       | Raise e => Exists (fun f => fut_result f = Raise e) completed
       end.
Proof.
  destruct (pool_run_all env (length steps) sched (submit_all steps) [] m)
    as (completed & m' & Hrun & _ & _).
  { unfold submit_all. apply length_imap. }
  simpl in Hrun. exists completed, m'. split; [assumption|].
  unfold run_parallel, bind. rewrite Hrun.
  destruct (collect_spec completed true m') as [Hm Hres]. split; [assumption|].
  destruct (fst (collect completed true m')) as [ok|e]; [|assumption].
  destruct Hres as [Hiff Hall]. split; [|assumption].
  rewrite Hiff. split; [by intros [_ ?]|by split].
Qed.

Section Tame.
Hypothesis Htame : tame.

(** Workers that complete in the order of submission do what the verbose
    sequential loop does. *)
Lemma fifo_pool_is_verbose_loop (env : gmap string string) :
  forall (pending : list (nat * Step)) (completed : list Future) (m : Machine W),
    Forall (fun f => exists b, fut_result f = Ret b) completed ->
    bind (pool_run env (length pending) [] pending completed)
         (fun cs => collect cs true) m
    = run_sequential true env (List.map snd pending) (forallb future_ok completed) m.
Proof.
  induction pending as [|task rest IH]; intros completed m Hall.
  - simpl. unfold bind, ret. by rewrite (collect_all_ret completed Hall).
  - cbn [length pool_run hd tl List.map run_sequential].
    rewrite Nat.Div0.mod_0_l. cbn [nth base.delete list_delete].
    destruct (execute_step_returns Htame task.2 env m) as (ok & m1 & Hex).
    set (f := {| fut_index := task.1; fut_step := task.2; fut_result := Ret ok |}).
    assert (run_task env task m = (Ret f, m1)) as Htask
      by (unfold run_task; by rewrite Hex).
    assert (Forall (fun f => exists b, fut_result f = Ret b) (completed ++ [f])) as Hall'.
    { apply Forall_app. split; [assumption|]. constructor; [by exists ok|constructor]. }
    rewrite bind_assoc, (bind_returned _ _ _ _ _ Htask), (bind_returned _ _ _ _ _ Hex).
    rewrite (IH (completed ++ [f]) m1 Hall'), forallb_app.
    cbn [forallb]. unfold future_ok at 2. cbn [fut_result f].
    destruct ok; cbn [negb].
    + by rewrite !andb_true_r.
    + by rewrite andb_false_r.
Qed.

(** X19: when nothing outside [Exception] is raised, a parallel run whose
    workers complete in the order of submission is the sequential run with
    [--verbose]: the same exit code and the same state, step for step. *)
Theorem fifo_parallel_is_verbose_sequential (doc : Document) (verbose : bool)
    (sched : list nat) (m : Machine W) :
  run doc true verbose [] m = run doc false true sched m.
Proof.
  unfold run. destruct (load_workflow doc) as [[steps env]|c]; [|reflexivity].
  destruct steps as [|step rest]; [reflexivity|].
  unfold bind at 1 3. unfold set_results. cbn [negb].
  unfold bind at 1 2.
  pose proof (fifo_pool_is_verbose_loop env (submit_all (step :: rest)) []
                (with_results m ∅) (List.Forall_nil _)) as Hfifo.
  unfold submit_all in Hfifo at 3. rewrite map_snd_imap in Hfifo.
  unfold submit_all in Hfifo at 1. rewrite length_imap in Hfifo.
  change (run_parallel [] env (step :: rest) (with_results m ∅))
    with (bind (pool_run env (length (step :: rest)) [] (submit_all (step :: rest)) [])
               (fun cs => collect cs true) (with_results m ∅)).
  by rewrite Hfifo.
Qed.

End Tame.
End Coordinator.

Import Demo.

Lemma empty_workflow_is_success_witness :
  @run _ demo_world (workflow []) true false [] start = (Ret 0%Z, start).
Proof. exact (@empty_workflow_is_success _ demo_world (workflow []) true false [] start eq_refl). Defined.

Lemma sequential_exit_code_witness :
  let out := @run _ demo_world hard_then_ok false true [] start in
  (fst out = Ret 0%Z \/ fst out = Ret 1%Z)
  /\ (fst out = Ret 0%Z <->
      List.map ev_step (console (snd out))
      = [valid_shell "a" "exit 3" false; valid_shell "b" "true" false]
      /\ Forall (fun ev => effective ev = true) (console (snd out))).
Proof.
  intros out.
  apply (@sequential_exit_code _ demo_world hard_then_ok true [] start _ ∅
           (console (snd out))).
  - reflexivity.
  - exists 1%Z. vm_compute. reflexivity.
  - reflexivity.
Defined.

Lemma sequential_run_follows_declared_order_witness :
  let out := @run _ demo_world exit_in_the_middle false false [] start in
  List.map ev_step (console (snd out))
  = take (length (console (snd out)))
         [valid_shell "a" "true" false; valid_python "P" "raise SystemExit(3)";
          valid_shell "b" "true" false].
Proof.
  intros out.
  apply (@sequential_run_follows_declared_order _ demo_world exit_in_the_middle
           false [] start _ ∅ (console (snd out))).
  - reflexivity.
  - reflexivity.
Defined.

Lemma verbose_run_executes_every_step_witness :
  let out := @run _ demo_world hard_then_ok false true [] start in
  List.map ev_step (console (snd out))
  = [valid_shell "a" "exit 3" false; valid_shell "b" "true" false].
Proof.
  intros out.
  apply (@verbose_run_executes_every_step _ demo_world hard_then_ok [] start _ ∅
           (console (snd out)) 1%Z).
  - reflexivity.
  - vm_compute. reflexivity.
  - reflexivity.
Defined.

Lemma fifo_parallel_is_verbose_sequential_witness :
  @run _ calm_world three_steps true false [] start
  = @run _ calm_world three_steps false true [1; 2] start.
Proof.
  exact (@fifo_parallel_is_verbose_sequential _ calm_world calm_world_tame
           three_steps false [1; 2] start).
Defined.

End CoordinatorLaws.
